(** * The data-preparation pipeline of the e-commerce dashboard (app.py)

    A shallow embedding of [safe_read_csv], [to_datetime_safe], [ensure_col]
    and [load_data], and of the figures that the first and fourth tabs
    compute from the loaded tables, over a small model of the pandas
    operations they call.

    Conventions of the model.
    - A cell is a [value]; [NA] stands for every pandas missing marker
      (NaN, None, NaT).  Floats are exact rationals ([Qc]); a timestamp is
      the integer number of nanoseconds since the epoch, as in
      datetime64[ns].
    - A [DataFrame] is column-major, with a default range index: a row is
      an index [i < nrows].  Column dtypes are not tracked, so the errors
      pandas raises on dtypes (merging keys of different dtypes, [.dt] on
      an object column) are outside the model.  So is the refusal of a
      merge whose suffixes would give two columns one name: the model
      keeps both.
    - Text parsing done inside pandas ([pd.to_datetime], [pd.to_numeric],
      [pd.read_csv]) is a parameter of the development.  So is the order
      in which a sort on one key leaves the rows with equal keys: pandas
      then calls numpy's default sort, which is not stable. *)

From Stdlib Require Import List String Ascii ZArith QArith Qcanon Bool Arith Lia.
From Stdlib Require Import Permutation Sorted.
Import ListNotations.
Local Open Scope string_scope.
Local Open Scope list_scope.
Local Open Scope nat_scope.

(* ------------------------------------------------------------------ *)
(** ** Cells *)

Inductive value : Type :=
| NA
| VStr (s : string)
| VNum (q : Qc)
| VTime (ns : Z).

Definition isna (v : value) : bool :=
  match v with NA => true | _ => false end.

Definition notna (v : value) : bool := negb (isna v).

Definition value_eqb (a b : value) : bool :=
  match a, b with
  | NA, NA => true
  | VStr s, VStr t => String.eqb s t
  | VNum p, VNum q => Qeq_bool p q
  | VTime s, VTime t => Z.eqb s t
  | _, _ => false
  end.

(** Order used by sorting and by [max]: missing values last
    ([na_position="last"]); values of one kind by their natural order.
    pandas refuses to compare cells of different kinds; the model orders
    them by kind so that the comparison is total. *)
Definition kind_rank (v : value) : nat :=
  match v with VNum _ => 0 | VTime _ => 1 | VStr _ => 2 | NA => 3 end.

Definition value_leb (a b : value) : bool :=
  match a, b with
  | VNum p, VNum q => Qle_bool p q
  | VTime s, VTime t => Z.leb s t
  | VStr s, VStr t => String.leb s t
  | _, _ => Nat.leb (kind_rank a) (kind_rank b)
  end.

(* ------------------------------------------------------------------ *)
(** ** Python exceptions and fallible computations *)

Inductive py_exception : Type :=
| FileNotFoundError
| KeyError (key : string)
| OtherException (cls : string).

Inductive exc (A : Type) : Type :=
| Ret (a : A)
| Raise (e : py_exception).
Arguments Ret {A} a.
Arguments Raise {A} e.

Definition bind {A B : Type} (m : exc A) (k : A -> exc B) : exc B :=
  match m with Ret a => k a | Raise e => Raise e end.

Notation "x <- m ;; k" := (bind m (fun x => k))
  (at level 61, m at next level, right associativity).

(* ------------------------------------------------------------------ *)
(** ** Stable sorting *)

Section Isort.
Context {A : Type} (leb : A -> A -> bool).

Fixpoint insert (x : A) (l : list A) : list A :=
  match l with
  | [] => [x]
  | y :: l' => if leb x y then x :: l else y :: insert x l'
  end.

Definition isort (l : list A) : list A := fold_right insert [] l.
End Isort.

(* ------------------------------------------------------------------ *)
(** ** Tables *)

Record DataFrame : Type := mkDF {
  nrows : nat;
  cols : list (string * list value)
}.

(** [pd.DataFrame()] *)
Definition empty_df : DataFrame := mkDF 0 [].

Definition columns (df : DataFrame) : list string := map fst (cols df).

(** [c in df.columns] *)
Definition has_col (c : string) (df : DataFrame) : bool :=
  existsb (String.eqb c) (columns df).

(** [df.empty]: some axis has length 0. *)
Definition df_empty (df : DataFrame) : bool :=
  Nat.eqb (nrows df) 0 || Nat.eqb (List.length (cols df)) 0.

Definition stored (c : string) (df : DataFrame) : option (list value) :=
  match find (fun p => String.eqb c (fst p)) (cols df) with
  | Some p => Some (snd p)
  | None => None
  end.

(** The cell of column [c] at row [i]; [NA] where there is none. *)
Definition cell (df : DataFrame) (c : string) (i : nat) : value :=
  match stored c df with
  | Some s => nth i s NA
  | None => NA
  end.

(** [df[c]] as a series aligned on the index. *)
Definition column (c : string) (df : DataFrame) : list value :=
  map (cell df c) (seq 0 (nrows df)).

Fixpoint replace_col (c : string) (s : list value)
         (l : list (string * list value)) : list (string * list value) :=
  match l with
  | [] => [(c, s)]
  | (c', s') :: l' =>
      if String.eqb c c' then (c', s) :: l' else (c', s') :: replace_col c s l'
  end.

(** [df[c] = f(index)]: overwrite column [c], or append it. *)
Definition assign (c : string) (f : nat -> value) (df : DataFrame) : DataFrame :=
  mkDF (nrows df) (replace_col c (map f (seq 0 (nrows df))) (cols df)).

(** [df[c] = s] for a series [s] on a range index: aligned, short series
    are completed with missing values. *)
Definition set_col (c : string) (s : list value) (df : DataFrame) : DataFrame :=
  assign c (fun i => nth i s NA) df.

(** [df.loc[mask, c] = f]: rows outside the mask keep their cell; a column
    created by the assignment is missing there. *)
Definition loc_set (mask : nat -> bool) (c : string) (f : nat -> value)
           (df : DataFrame) : DataFrame :=
  assign c (fun i => if mask i then f i else cell df c i) df.

(** Positional selection of rows ([df.take(idxs)]). *)
Definition take (idxs : list nat) (df : DataFrame) : DataFrame :=
  mkDF (List.length idxs)
       (map (fun p => (fst p, map (fun i => nth i (snd p) NA) idxs)) (cols df)).

(** [df[cs]] for column names [cs] present in [df]. *)
Definition project (cs : list string) (df : DataFrame) : DataFrame :=
  mkDF (nrows df) (map (fun c => (c, column c df)) cs).

Definition first_missing (cs : list string) (df : DataFrame) : option string :=
  find (fun c => negb (has_col c df)) cs.

(** [argsort] of the row positions [idxs] by a key, stable. *)
Definition argsort (key : nat -> value) (idxs : list nat) : list nat :=
  isort (fun i j => value_leb (key i) (key j)) idxs.

(** [df.sort_values(by)] for a list of several columns: lexicographic on the
    columns [by_], missing keys last, rows with equal keys in their input
    order (the last key is sorted first, each earlier key by a stable pass,
    as [np.lexsort] does).  For a single key pandas calls numpy's default
    sort instead: see [sort_values_quicksort]. *)
Definition sort_values (by_ : list string) (df : DataFrame) : exc DataFrame :=
  match first_missing by_ df with
  | Some c => Raise (KeyError c)
  | None =>
      Ret (take (fold_right (fun c idxs => argsort (cell df c) idxs)
                            (seq 0 (nrows df)) by_) df)
  end.

(** The default sort of numpy ([kind="quicksort"]) is not stable: it
    returns the rows by increasing key, and rows with equal keys in an order
    that depends on its implementation and on the whole array.  That order
    is given by [rank], the rank of every row among the rows of its key
    (rows of one key and one rank stay in input order).  Rows with a
    missing key are not handed to numpy: pandas puts them last, in input
    order. *)
Definition tie_rank (key : nat -> value) (rank : nat -> nat) (i : nat) : nat :=
  if isna (key i) then 0 else rank i.

Definition quicksort_leb (key : nat -> value) (rank : nat -> nat)
           (i j : nat) : bool :=
  if value_leb (key i) (key j)
  then if value_leb (key j) (key i)
       then Nat.leb (tie_rank key rank i) (tie_rank key rank j)
       else true
  else false.

Definition argsort_quicksort (key : nat -> value) (rank : nat -> nat)
           (idxs : list nat) : list nat :=
  isort (quicksort_leb key rank) idxs.

(** [df.sort_values(c)] for one column name: the default sort, with the
    order [ties] of rows with equal keys, a function of the column that
    is sorted. *)
Definition sort_values_quicksort (ties : list value -> nat -> nat)
           (c : string) (df : DataFrame) : exc DataFrame :=
  if has_col c df
  then Ret (take (argsort_quicksort (cell df c) (ties (column c df))
                                    (seq 0 (nrows df))) df)
  else Raise (KeyError c).

(** Positions of the first row of every key, along [idxs]. *)
Fixpoint first_occurrences (key : nat -> value) (seen : list value)
         (idxs : list nat) : list nat :=
  match idxs with
  | [] => []
  | i :: rest =>
      if existsb (value_eqb (key i)) seen
      then first_occurrences key seen rest
      else i :: first_occurrences key (key i :: seen) rest
  end.

(** [df.drop_duplicates(c)] (keep="first"; missing keys equal each other). *)
Definition drop_duplicates (c : string) (df : DataFrame) : exc DataFrame :=
  if has_col c df
  then Ret (take (first_occurrences (cell df c) [] (seq 0 (nrows df))) df)
  else Raise (KeyError c).

(** Rows of a table whose key is [k], in row order. *)
Definition rows_with (key : nat -> value) (n : nat) (k : value) : list nat :=
  filter (fun j => value_eqb (key j) k) (seq 0 n).

(** Row pairs of a left join: every left row, in order, with each matching
    right row, or with none. *)
Definition join_pairs (on : string) (L R : DataFrame) : list (nat * option nat) :=
  flat_map (fun i =>
              match rows_with (cell R on) (nrows R) (cell L on i) with
              | [] => [(i, None)]
              | js => map (fun j => (i, Some j)) js
              end)
           (seq 0 (nrows L)).

(** Name of a non-key column in the merged table: columns present on both
    sides get the suffixes "_x" and "_y". *)
Definition left_name (on : string) (R : DataFrame) (c : string) : string :=
  if negb (String.eqb c on) && has_col c R then (c ++ "_x")%string else c.

Definition right_name (on : string) (L : DataFrame) (c : string) : string :=
  if has_col c L then (c ++ "_y")%string else c.

Definition merge_cols (on : string) (L R : DataFrame)
  : list (string * list value) :=
  let pairs := join_pairs on L R in
  map (fun p => (left_name on R (fst p),
                 map (fun ij => nth (fst ij) (snd p) NA) pairs)) (cols L)
  ++ map (fun p => (right_name on L (fst p),
                    map (fun ij => match snd ij with
                                   | Some j => nth j (snd p) NA
                                   | None => NA
                                   end) pairs))
         (filter (fun p => negb (String.eqb (fst p) on)) (cols R)).

(** [L.merge(R, on=on, how="left")]. *)
Definition merge_left (on : string) (L R : DataFrame) : exc DataFrame :=
  if has_col on L && has_col on R
  then Ret (mkDF (List.length (join_pairs on L R)) (merge_cols on L R))
  else Raise (KeyError on).

(** Keys of the groups of [groupby(c)]: the distinct non-missing keys,
    sorted. *)
Definition group_keys (key : nat -> value) (n : nat) : list value :=
  isort value_leb
        (filter notna (map key (first_occurrences key [] (seq 0 n)))).

(** [max] of a group: the largest non-missing value, missing if none. *)
Definition max_step (m v : value) : value :=
  if isna v then m
  else if isna m then v
  else if value_leb m v then v else m.

Definition agg_max (vals : list value) : value :=
  fold_left max_step vals NA.

(* ------------------------------------------------------------------ *)
(** ** Calendar months *)

Definition ns_per_day : Z := 86400 * 1000000000.

(** Year and month of the day [z] (days since 1970-01-01), proleptic
    Gregorian calendar. *)
Definition civil_year_month (z : Z) : Z * Z :=
  let z := (z + 719468)%Z in
  let era := (z / 146097)%Z in
  let doe := (z - era * 146097)%Z in
  let yoe := ((doe - doe / 1460 + doe / 36524 - doe / 146096) / 365)%Z in
  let y := (yoe + era * 400)%Z in
  let doy := (doe - (365 * yoe + yoe / 4 - yoe / 100))%Z in
  let mp := ((5 * doy + 2) / 153)%Z in
  let m := (if mp <? 10 then mp + 3 else mp - 9)%Z in
  ((if m <=? 2 then y + 1 else y)%Z, m).

Definition digit (d : Z) : ascii :=
  ascii_of_nat (48 + Z.to_nat (d mod 10)).

Definition digits2 (n : Z) : string :=
  String (digit (n / 10)) (String (digit n) EmptyString).

Definition digits4 (n : Z) : string :=
  String (digit (n / 1000)) (String (digit (n / 100)) (digits2 n)).

(** Display form of the monthly period of a timestamp, "YYYY-MM". *)
Definition year_month (ns : Z) : string :=
  let ym := civil_year_month (ns / ns_per_day) in
  (digits4 (fst ym) ++ "-" ++ digits2 (snd ym))%string.

(** [.dt.to_period("M").astype(str)] on one cell of a date-time series:
    the text of a missing period is "NaT". *)
Definition period_month_str (v : value) : value :=
  match v with
  | VTime ns => VStr (year_month ns)
  | _ => VStr "NaT"
  end.

(** [.dt.total_seconds() / (24 * 3600)] of a difference of two timestamps. *)
Definition total_seconds (delta_ns : Z) : Qc := Q2Qc (delta_ns # 1000000000).

Definition elapsed_days (later earlier : value) : value :=
  match later, earlier with
  | VTime a, VTime b => VNum (total_seconds (a - b) / Q2Qc (86400 # 1))%Qc
  | _, _ => NA
  end.

(* ------------------------------------------------------------------ *)
(** ** app.py *)

(** A series with its dtype, as returned by [to_datetime_safe]. *)
Record Series : Type := mkSeries {
  dtype : string;
  values : list value
}.

Definition datetime64 : string := "datetime64[ns]".

Record LoadedData : Type := mkLoaded {
  payments : DataFrame;
  products : DataFrame;
  customers : DataFrame;
  sellers : DataFrame;
  orders : DataFrame;
  lifecycle : DataFrame;
  enriched : DataFrame
}.

Definition default_formats : list string :=
  [ "%Y-%m-%d %H:%M:%S";
    "%Y-%m-%d %H:%M";
    "%d-%m-%Y %H:%M";
    "%d/%m/%Y %H:%M:%S";
    "%d/%m/%Y %H:%M" ].

Definition date_cols : list string :=
  [ "order_purchase_timestamp"; "order_approved_at";
    "order_delivered_carrier_date"; "order_delivered_customer_date";
    "order_estimated_delivery_date" ].

Definition of_option {A : Type} (f : A -> value) (o : option A) : value :=
  match o with Some a => f a | None => NA end.

(** [series.fillna(d)] on one cell. *)
Definition fillna (d : value) (v : value) : value :=
  if isna v then d else v.

(* ------------------------------------------------------------------ *)
(** ** Sample readers and tables for the worked examples *)

(** Unsigned decimal integers. *)
Fixpoint read_digits (s : string) (acc : Z) : option Z :=
  match s with
  | EmptyString => Some acc
  | String c rest =>
      let n := Z.of_nat (nat_of_ascii c) in
      if ((48 <=? n) && (n <=? 57))%Z
      then read_digits rest (acc * 10 + (n - 48))%Z
      else None
  end.

Definition read_number (s : string) : option Z :=
  match s with
  | EmptyString => None
  | _ => read_digits s 0
  end.

(** Days from 1970-01-01 to the civil date [y]-[m]-[d]. *)
Definition days_from_civil (y m d : Z) : Z :=
  let y := (if m <=? 2 then y - 1 else y)%Z in
  let era := (y / 400)%Z in
  let yoe := (y - era * 400)%Z in
  let doy := ((153 * (if 2 <? m then m - 3 else m + 9) + 2) / 5 + d - 1)%Z in
  let doe := (yoe * 365 + yoe / 4 - yoe / 100 + doy)%Z in
  (era * 146097 + doe - 719468)%Z.

(** Timestamps written "YYYY-MM-DD HH:MM:SS". *)
Definition read_timestamp (s : string) : option Z :=
  if Nat.eqb (String.length s) 19
     && String.eqb (substring 4 1 s) "-" && String.eqb (substring 7 1 s) "-"
     && String.eqb (substring 10 1 s) " " && String.eqb (substring 13 1 s) ":"
     && String.eqb (substring 16 1 s) ":"
  then
    match read_number (substring 0 4 s), read_number (substring 5 2 s),
          read_number (substring 8 2 s), read_number (substring 11 2 s),
          read_number (substring 14 2 s), read_number (substring 17 2 s) with
    | Some y, Some mo, Some d, Some h, Some mi, Some se =>
        Some (((days_from_civil y mo d * 86400 + h * 3600 + mi * 60 + se)
               * 1000000000)%Z)
    | _, _, _, _, _, _ => None
    end
  else None.

Definition sample_strptime (fmt : string) (v : value) : option Z :=
  match v with
  | VStr s => if String.eqb fmt "%Y-%m-%d %H:%M:%S" then read_timestamp s else None
  | _ => None
  end.

Definition sample_guess_datetime (col : list value) (v : value) : option Z :=
  None.

Definition sample_parse_float (s : string) : option Qc :=
  match read_number s with
  | Some z => Some (Q2Qc (inject_Z z))
  | None => None
  end.

(** Orders A, B, C and D: C has an unreadable purchase date, B is not
    delivered, D is delivered a day before its purchase. *)
Definition sample_orders : DataFrame :=
  mkDF 4
    [ ("order_id", [VStr "A"; VStr "B"; VStr "C"; VStr "D"]);
      ("customer_id", [VStr "c1"; VStr "c2"; VStr "c3"; VStr "c1"]);
      ("order_status",
        [VStr "delivered"; VStr "shipped"; VStr "delivered"; VStr "delivered"]);
      ("order_purchase_timestamp",
        [VStr "2024-01-15 10:30:00"; VStr "2024-02-01 08:00:00";
         VStr "unknown"; VStr "2024-03-10 00:00:00"]);
      ("order_delivered_customer_date",
        [VStr "2024-01-18 10:30:00"; NA;
         VStr "2024-03-01 00:00:00"; VStr "2024-03-09 00:00:00"]) ].

(** Two payment rows for A (3 installments, then 1), one for B. *)
Definition sample_payments : DataFrame :=
  mkDF 3
    [ ("order_id", [VStr "A"; VStr "A"; VStr "B"]);
      ("payment_type", [VStr "credit_card"; VStr "voucher"; VStr "boleto"]);
      ("payment_installments",
        [VNum (Q2Qc (3 # 1)); VNum (Q2Qc (1 # 1)); VNum (Q2Qc (1 # 1))]);
      ("payment_value",
        [VNum (Q2Qc (40 # 1)); VNum (Q2Qc (25 # 1)); VNum (Q2Qc (60 # 1))]) ].

(** Two payment rows for A, the second with an installment cell that is
    not a number. *)
Definition text_payments : DataFrame :=
  mkDF 2
    [ ("order_id", [VStr "A"; VStr "A"]);
      ("payment_type", [VStr "credit_card"; VStr "voucher"]);
      ("payment_installments", [VStr "2"; VStr "n/a"]);
      ("payment_value", [VNum (Q2Qc (40 # 1)); VNum (Q2Qc (25 # 1))]) ].

Definition sample_customers : DataFrame :=
  mkDF 2
    [ ("customer_id", [VStr "c1"; VStr "c2"]);
      ("customer_city", [VStr "sao paulo"; VStr "recife"]);
      ("customer_state", [VStr "SP"; VStr "PE"]) ].

(** Order A is created, then shipped. *)
Definition sample_lifecycle : DataFrame :=
  mkDF 2
    [ ("order_id", [VStr "A"; VStr "A"]);
      ("event_timestamp",
        [VStr "2024-01-15 10:30:00"; VStr "2024-01-16 09:00:00"]);
      ("event_type", [VStr "order_created"; VStr "order_shipped"]) ].

(** Customer c1 listed twice, with two cities. *)
Definition repeated_customers : DataFrame :=
  mkDF 3
    [ ("customer_id", [VStr "c1"; VStr "c2"; VStr "c1"]);
      ("customer_city", [VStr "sao paulo"; VStr "recife"; VStr "campinas"]);
      ("customer_state", [VStr "SP"; VStr "PE"; VStr "SP"]) ].

(** A lifecycle file without the event_type column. *)
Definition untyped_lifecycle : DataFrame :=
  mkDF 1
    [ ("order_id", [VStr "A"]);
      ("event_timestamp", [VStr "2024-01-15 10:30:00"]) ].

(** Three delivered orders with their payment values. *)
Definition paid_orders : DataFrame :=
  mkDF 3
    [ ("order_id", [VStr "A"; VStr "B"; VStr "D"]);
      ("customer_id", [VStr "c1"; VStr "c2"; VStr "c1"]);
      ("payment_value",
        [VNum (Q2Qc (40 # 1)); VNum (Q2Qc (60 # 1)); VNum (Q2Qc (25 # 1))]) ].

Definition T1 : Z := 1705314600000000000.
Definition T2 : Z := 1705395600000000000.

(** The same table once its timestamps are parsed. *)
Definition parsed_lifecycle : DataFrame :=
  mkDF 2
    [ ("order_id", [VStr "A"; VStr "A"]);
      ("event_timestamp", [VTime T1; VTime T2]);
      ("event_type", [VStr "order_created"; VStr "order_shipped"]) ].

(** Order A is created; its later event has no event_type. *)
Definition untyped_last_event : DataFrame :=
  mkDF 2
    [ ("order_id", [VStr "A"; VStr "A"]);
      ("event_timestamp", [VTime T1; VTime T2]);
      ("event_type", [VStr "order_created"; NA]) ].

Definition order_ids : DataFrame :=
  mkDF 3 [ ("order_id", [VStr "A"; VStr "B"; VStr "C"]) ].

(** Rows with equal keys in input order: what numpy's default sort gives
    on short arrays, which it sorts by insertion. *)
Definition stable_ties (column : list value) (i : nat) : nat := 0.

(** A sort that is stable on arrays of at most 16 elements and puts
    later rows first among equal keys on longer ones. *)
Definition late_first_ties (column : list value) (i : nat) : nat :=
  if Nat.ltb 16 (List.length column) then List.length column - i else 0.

(** Seventeen payment rows, all of one installment: order A has the first
    and the last of them, order B the fifteen rows in between. *)
Definition tied_payments : DataFrame :=
  mkDF 17
    [ ("order_id", VStr "A" :: repeat (VStr "B") 15 ++ [VStr "A"]);
      ("payment_type",
        VStr "credit_card" :: repeat (VStr "boleto") 15 ++ [VStr "voucher"]);
      ("payment_installments", repeat (VNum (Q2Qc (1 # 1))) 17);
      ("payment_value",
        VNum (Q2Qc (40 # 1)) :: repeat (VNum (Q2Qc (60 # 1))) 15
        ++ [VNum (Q2Qc (25 # 1))]) ].

(** A directory with the order, payment and lifecycle files, an unreadable
    customer file, and no product or seller file. *)
Definition sample_read_csv (path : string) : exc DataFrame :=
  if String.eqb path "data/dim_order.csv" then Ret sample_orders
  else if String.eqb path "data/dim_payments.csv" then Ret sample_payments
  else if String.eqb path "data/fact_order_lifecycle.csv" then Ret sample_lifecycle
  else if String.eqb path "data/dim_customer.csv"
       then Raise (OtherException "ParserError")
  else Raise FileNotFoundError.

#[local] Set Default Proof Using "Type".

Section App.

(** What pandas reads out of text and files; the development holds for
    every choice of these.
    - [strptime fmt v]: the raw cell [v] read under the format [fmt];
    - [guess_datetime col v]: the raw cell [v] of the column [col] read
      without a format (pandas may infer one from the column);
    - [parse_float s]: the number written by the text [s];
    - [read_csv path]: the table in the file, or the exception raised. *)
Variable strptime : string -> value -> option Z.
Variable guess_datetime : list value -> value -> option Z.
Variable parse_float : string -> option Qc.
Variable read_csv : string -> exc DataFrame.

(** The order in which numpy's default sort leaves rows with equal keys
    (see [quicksort_leb]); the development holds for every such order. *)
Variable quicksort_ties : list value -> nat -> nat.

(** [pd.to_datetime(series, format=fmt, errors="coerce")], cell by cell:
    a missing cell stays missing, a timestamp is kept. *)
Definition to_datetime_cell (fmt : string) (v : value) : value :=
  match v with
  | NA => NA
  | VTime t => VTime t
  | _ => of_option VTime (strptime fmt v)
  end.

(** [pd.to_datetime(series, errors="coerce")]. *)
Definition to_datetime_generic (s : list value) : list value :=
  map (fun v => match v with
                | NA => NA
                | VTime t => VTime t
                | _ => of_option VTime (guess_datetime s v)
                end) s.

(** [pd.to_numeric(series, errors="coerce")], cell by cell. *)
Definition to_numeric_cell (v : value) : value :=
  match v with
  | NA => NA
  | VNum q => VNum q
  | VStr s => of_option VNum (parse_float s)
  | VTime t => VNum (Q2Qc (inject_Z t))
  end.

(** [safe_read_csv] *)
Definition safe_read_csv (path : string) : DataFrame :=
  match read_csv path with
  | Ret df => df
  | Raise FileNotFoundError => empty_df
  | Raise _ => empty_df
  end.

(** The loop of [to_datetime_safe] over the candidate formats. *)
Fixpoint try_formats (formats : list string) (series : list value)
  : list value :=
  match formats with
  | [] => to_datetime_generic series
  | fmt :: rest =>
      let parsed := map (to_datetime_cell fmt) series in
      if existsb notna parsed then parsed else try_formats rest series
  end.

(** [to_datetime_safe] *)
Definition to_datetime_safe (series : option (list value))
           (formats : option (list string)) : Series :=
  match series with
  | None => mkSeries datetime64 []
  | Some s =>
      if Nat.eqb (List.length s) 0 then mkSeries datetime64 []
      else
        let formats := match formats with
                       | None => default_formats
                       | Some fs => fs
                       end in
        mkSeries datetime64 (try_formats formats s)
  end.

(** [ensure_col] *)
Definition ensure_col (df : DataFrame) (col : string) (default : value)
  : DataFrame :=
  if negb (has_col col df) then assign col (fun _ => default) df else df.

(** [df[col] = to_datetime_safe(df[col])] *)
Definition parse_dates (col : string) (df : DataFrame) : DataFrame :=
  set_col col (values (to_datetime_safe (Some (column col df)) None)) df.

Definition parse_order_dates (df_orders : DataFrame) : DataFrame :=
  if negb (df_empty df_orders)
  then fold_left (fun df col => if has_col col df then parse_dates col df else df)
                 date_cols df_orders
  else df_orders.

Definition parse_lifecycle_dates (df_lifecycle : DataFrame) : DataFrame :=
  if negb (df_empty df_lifecycle) && has_col "event_timestamp" df_lifecycle
  then parse_dates "event_timestamp" df_lifecycle
  else df_lifecycle.

Definition coerce_installments (df_payments : DataFrame) : DataFrame :=
  if has_col "payment_installments" df_payments
  then assign "payment_installments"
              (fun i => fillna (VNum 0)
                          (to_numeric_cell
                             (cell df_payments "payment_installments" i)))
              df_payments
  else df_payments.

(** [lambda x: x.dropna().iloc[-1] if len(x.dropna()) > 0 else np.nan] *)
Definition last_event_type (x : list value) : value :=
  let d := filter notna x in
  if Nat.ltb 0 (List.length d) then last d NA else NA.

(** [groupby("order_id").agg(event_timestamp=max, event_type=last
    non-missing).reset_index()] *)
Definition lifecycle_agg (sorted : DataFrame) : exc DataFrame :=
  match first_missing ["order_id"; "event_timestamp"; "event_type"] sorted with
  | Some c => Raise (KeyError c)
  | None =>
      let key := cell sorted "order_id" in
      let n := nrows sorted in
      let keys := group_keys key n in
      Ret (mkDF (List.length keys)
             [ ("order_id", keys);
               ("event_timestamp",
                 map (fun k => agg_max (map (cell sorted "event_timestamp")
                                            (rows_with key n k))) keys);
               ("event_type",
                 map (fun k => last_event_type
                                 (map (cell sorted "event_type")
                                      (rows_with key n k))) keys) ])
  end.

Definition join_lifecycle (df_enriched df_lifecycle : DataFrame)
  : exc DataFrame :=
  if negb (df_empty df_lifecycle) && has_col "order_id" df_lifecycle
  then
    df_lifecycle_sorted <-
      sort_values ["order_id"; "event_timestamp"] df_lifecycle ;;
    agg <- lifecycle_agg df_lifecycle_sorted ;;
    merge_left "order_id" df_enriched agg
  else Ret df_enriched.

Definition present_cols (cs : list string) (df : DataFrame) : list string :=
  filter (fun c => has_col c df) cs.

Definition join_customers (df_enriched df_customers : DataFrame)
  : exc DataFrame :=
  if negb (df_empty df_customers) && has_col "customer_id" df_enriched
  then
    let cols := present_cols ["customer_id"; "customer_city"; "customer_state"]
                             df_customers in
    dedup <- drop_duplicates "customer_id" (project cols df_customers) ;;
    merge_left "customer_id" df_enriched dedup
  else Ret df_enriched.

Definition payment_cols : list string :=
  ["order_id"; "payment_type"; "payment_installments"; "payment_value"].

(** Line 116: one key, so the default sort, which is not stable. *)
Definition payments_small (df_payments : DataFrame) : exc DataFrame :=
  sorted <- sort_values_quicksort quicksort_ties "payment_installments"
                                  df_payments ;;
  drop_duplicates "order_id" sorted.

Definition join_payments (df_enriched df_payments : DataFrame)
  : exc DataFrame :=
  if negb (df_empty df_payments) && has_col "order_id" df_payments
  then
    small <- payments_small df_payments ;;
    let cols := present_cols payment_cols small in
    match cols with
    | [] => Ret df_enriched
    | _ => merge_left "order_id" df_enriched (project cols small)
    end
  else Ret df_enriched.

Definition default_payment_value : value := VNum (Q2Qc (100 # 1)).

Definition normalize_payment_value (df_enriched : DataFrame) : DataFrame :=
  if has_col "payment_value" df_enriched
  then assign "payment_value"
              (fun i => fillna default_payment_value
                          (to_numeric_cell (cell df_enriched "payment_value" i)))
              df_enriched
  else assign "payment_value" (fun _ => default_payment_value) df_enriched.

(** Lines 96-125 of [load_data]: the joins and the payment default. *)
Definition enrich_join (df_orders df_lifecycle df_customers df_payments
                        : DataFrame) : exc DataFrame :=
  e1 <- join_lifecycle df_orders df_lifecycle ;;
  e2 <- join_customers e1 df_customers ;;
  e3 <- join_payments e2 df_payments ;;
  Ret (normalize_payment_value e3).

Definition add_month (col name : string) (df : DataFrame) : DataFrame :=
  if has_col col df
  then
    let dt := to_datetime_generic (column col df) in
    assign name (fun i => period_month_str (nth i dt NA)) df
  else assign name (fun _ => NA) df.

Definition add_months (df : DataFrame) : DataFrame :=
  add_month "event_timestamp" "lifecycle_month"
            (add_month "order_purchase_timestamp" "month" df).

(** Lines 134-140.  The two columns are of dtype datetime64 once
    [load_data] has parsed them, which it does when the order table has
    rows (line 66).  On an order table without rows they are still of
    dtype object, and [.dt] raises [AttributeError] there: dtypes being
    outside the model, the table, which has no row, is returned. *)
Definition add_processing_time (df : DataFrame) : DataFrame :=
  if has_col "order_delivered_customer_date" df
     && has_col "order_purchase_timestamp" df
  then
    let delivered_mask i :=
      notna (cell df "order_delivered_customer_date" i)
      && notna (cell df "order_purchase_timestamp" i) in
    loc_set delivered_mask "processing_time_days"
            (fun i => elapsed_days (cell df "order_delivered_customer_date" i)
                                   (cell df "order_purchase_timestamp" i))
            df
  else df.

(** The body of [load_data] once the six tables are read.  The loop
    "for df in (...): if not isinstance(df, pd.DataFrame): df = ..." only
    rebinds its own variable and is left out.  In-place updates of a table
    are successive bindings of its name. *)
Definition prepare (df_payments df_products df_customers df_sellers
                    df_orders df_lifecycle : DataFrame) : exc LoadedData :=
  let df_orders := parse_order_dates df_orders in
  let df_lifecycle := parse_lifecycle_dates df_lifecycle in
  let df_orders := ensure_col df_orders "order_id" (VStr "") in
  let df_orders := ensure_col df_orders "customer_id" (VStr "") in
  let df_orders := ensure_col df_orders "order_status" (VStr "") in
  let df_payments := ensure_col df_payments "order_id" (VStr "") in
  let df_payments := ensure_col df_payments "payment_installments" (VNum 0) in
  let df_products := ensure_col df_products "product_id" (VStr "") in
  let df_products :=
    ensure_col df_products "product_category_name" (VStr "Unknown") in
  let df_customers := ensure_col df_customers "customer_id" (VStr "") in
  let df_customers := ensure_col df_customers "customer_city" NA in
  let df_customers := ensure_col df_customers "customer_state" NA in
  let df_payments := coerce_installments df_payments in
  df_enriched <- enrich_join df_orders df_lifecycle df_customers df_payments ;;
  let df_enriched := add_processing_time (add_months df_enriched) in
  Ret (mkLoaded df_payments df_products df_customers df_sellers
                df_orders df_lifecycle df_enriched).

(** [load_data] *)
Definition load_data : exc LoadedData :=
  prepare (safe_read_csv "data/dim_payments.csv")
          (safe_read_csv "data/dim_products.csv")
          (safe_read_csv "data/dim_customer.csv")
          (safe_read_csv "data/dim_sellers.csv")
          (safe_read_csv "data/dim_order.csv")
          (safe_read_csv "data/fact_order_lifecycle.csv").

(* ---------------------------------------------------------------- *)
(** ** The dashboard tabs (module level of app.py) *)

(** [df[mask]] for a boolean mask on the rows. *)
Definition boolean_filter (mask : nat -> bool) (df : DataFrame) : DataFrame :=
  take (filter mask (seq 0 (nrows df))) df.

(** [series == s] on one cell; a missing cell equals nothing. *)
Definition is_text (s : string) (v : value) : bool := value_eqb v (VStr s).

(** The numbers of a series, missing cells skipped. *)
Definition numbers (vals : list value) : list Qc :=
  flat_map (fun v => match v with VNum q => [q] | _ => [] end) vals.

Definition total (qs : list Qc) : Qc := fold_right Qcplus (Q2Qc 0) qs.

(** [series.sum()] *)
Definition series_sum (vals : list value) : Qc := total (numbers vals).

(** [series.mean()]: missing when no number is left. *)
Definition series_mean (vals : list value) : value :=
  match numbers vals with
  | [] => NA
  | qs => VNum (total qs / Q2Qc (inject_Z (Z.of_nat (List.length qs))))%Qc
  end.

(** [a > b] on two cells of date-time columns: false when one is missing. *)
Definition later_than (a b : value) : bool :=
  match a, b with
  | VTime x, VTime y => Z.ltb y x
  | _, _ => false
  end.

Definition ratio (a b : nat) : Q :=
  (inject_Z (Z.of_nat a) / inject_Z (Z.of_nat b))%Q.

(** The key figures of the first tab (lines 179-198). *)
Record Tab1 : Type := mkTab1 {
  avg_processing_time : value;
  total_orders : nat;
  total_late_orders : nat;
  late_percentage : Qc;
  avg_review_score : Qc
}.

(** [df_orders["order_status"].value_counts().get("delivered", 0)] *)
Definition delivered_count (df_orders : DataFrame) : nat :=
  List.length (filter (fun i => is_text "delivered"
                                  (cell df_orders "order_status" i))
                      (seq 0 (nrows df_orders))).

(** Lines 179-198.  [df_enriched.get(col)] is [None] for an absent column:
    comparing [None] with a text gives [False], calling [.notna()] on it
    raises [AttributeError]. *)
Definition tab1_kpis (df_orders df_enriched : DataFrame) : exc Tab1 :=
  let total_orders := nrows df_orders in
  if negb (has_col "order_delivered_customer_date" df_enriched)
  then Raise (OtherException "AttributeError")
  else
    let delivered_mask i :=
      has_col "order_status" df_enriched
      && is_text "delivered" (cell df_enriched "order_status" i)
      && notna (cell df_enriched "order_delivered_customer_date" i) in
    let df_delivered := boolean_filter delivered_mask df_enriched in
    let avg_processing_time :=
      if negb (df_empty df_delivered)
         && has_col "order_delivered_customer_date" df_delivered
         && has_col "order_purchase_timestamp" df_delivered
      then series_mean
             (map (fun i => elapsed_days
                              (cell df_delivered "order_delivered_customer_date" i)
                              (cell df_delivered "order_purchase_timestamp" i))
                  (seq 0 (nrows df_delivered)))
      else VNum (Q2Qc 0) in
    avg_review_score <-
      (if Nat.ltb 0 total_orders
       then if has_col "order_status" df_orders
            then Ret (Q2Qc (ratio (delivered_count df_orders) total_orders * 5))
            else Raise (KeyError "order_status")
       else Ret (Q2Qc 0)) ;;
    let total_late_orders :=
      if has_col "order_estimated_delivery_date" df_enriched
         && has_col "order_delivered_customer_date" df_enriched
      then List.length
             (filter (fun i => later_than
                                 (cell df_enriched "order_delivered_customer_date" i)
                                 (cell df_enriched "order_estimated_delivery_date" i))
                     (seq 0 (nrows df_enriched)))
      else 0 in
    let late_percentage :=
      if Nat.ltb 0 total_orders
      then Q2Qc (ratio total_late_orders total_orders * 100)
      else Q2Qc 0 in
    Ret (mkTab1 avg_processing_time total_orders total_late_orders
                late_percentage avg_review_score).

Definition stage_order : list string :=
  ["order_created"; "order_paid"; "order_shipped"; "order_delivered"].

(** Lines 237-240: [value_counts().reindex(stage_order, fill_value=0)];
    no funnel for an empty lifecycle table. *)
Definition funnel_stages (df_lifecycle : DataFrame) : option (list nat) :=
  if negb (df_empty df_lifecycle) && has_col "event_type" df_lifecycle
  then Some (map (fun stage =>
                    List.length
                      (filter (fun i => is_text stage
                                          (cell df_lifecycle "event_type" i))
                              (seq 0 (nrows df_lifecycle))))
                 stage_order)
  else None.

(** [df[cs]] for a list of names: [KeyError] when one is absent. *)
Definition select_cols (cs : list string) (df : DataFrame) : exc DataFrame :=
  match first_missing cs df with
  | Some c => Raise (KeyError c)
  | None => Ret (project cs df)
  end.

(** [df.rename(columns={old: new})] *)
Definition rename_col (old new : string) (df : DataFrame) : DataFrame :=
  mkDF (nrows df)
       (map (fun p => (if String.eqb (fst p) old then new else fst p, snd p))
            (cols df)).

(** Lines 461-462 (and 253): the delivered orders of the enriched table. *)
Definition delivered_orders (df_enriched : DataFrame) : DataFrame :=
  if has_col "order_status" df_enriched
  then boolean_filter (fun i => is_text "delivered"
                                  (cell df_enriched "order_status" i))
                      df_enriched
  else take [] df_enriched.

(** Lines 461-493 of the fourth tab: the table [df_paid], without the
    [segment] column, which is drawn at random (lines 488-490) and which
    nothing modelled here reads. *)
Definition tab4_paid (df_enriched df_customers : DataFrame) : exc DataFrame :=
  let df_paid := delivered_orders df_enriched in
  df_paid <-
    (if negb (df_empty df_customers)
     then
       let keyed :=
         if has_col "customer_id" df_customers && has_col "customer_id" df_paid
         then Some df_customers
         else if has_col "customer_unique_id" df_customers
                 && has_col "customer_id" df_paid
              then Some (rename_col "customer_unique_id" "customer_id"
                                    df_customers)
              else None in
       match keyed with
       | Some df_customers =>
           sel <- select_cols ["customer_id"; "customer_city"; "customer_state"]
                              df_customers ;;
           dedup <- drop_duplicates "customer_id" sel ;;
           merge_left "customer_id" df_paid dedup
       | None => Ret df_paid
       end
     else Ret df_paid) ;;
  let df_paid :=
    if negb (has_col "customer_state" df_paid)
    then assign "customer_state" (fun _ => VStr "Unknown") df_paid
    else assign "customer_state"
                (fun i => fillna (VStr "Unknown")
                            (cell df_paid "customer_state" i))
                df_paid in
  let df_paid :=
    if negb (has_col "payment_value" df_paid)
    then assign "payment_value" (fun _ => VNum (Q2Qc 0)) df_paid
    else df_paid in
  Ret df_paid.

(** The label of the largest sum, the first one among equal sums. *)
Fixpoint argmax (l : list (value * Qc)) (best : option (value * Qc))
  : option value :=
  match l with
  | [] => match best with Some b => Some (fst b) | None => None end
  | (k, s) :: rest =>
      match best with
      | None => argmax rest (Some (k, s))
      | Some b => if Qle_bool s (snd b) then argmax rest best
                  else argmax rest (Some (k, s))
      end
  end.

(** [df.groupby(by)[col].sum().idxmax()]; [None] where pandas raises on an
    empty result. *)
Definition idxmax_sum (by_ col : string) (df : DataFrame) : option value :=
  let keys := group_keys (cell df by_) (nrows df) in
  argmax (map (fun k => (k, series_sum
                              (map (cell df col)
                                   (rows_with (cell df by_) (nrows df) k))))
              keys)
         None.

(** Lines 519-528. *)
Definition top_region (df_paid : DataFrame) : value :=
  if has_col "customer_state" df_paid && Nat.ltb 0 (nrows df_paid)
  then
    let valid_regions :=
      boolean_filter (fun i => negb (is_text "Unknown"
                                       (cell df_paid "customer_state" i)))
                     df_paid in
    if negb (df_empty valid_regions)
    then match idxmax_sum "customer_state" "payment_value" valid_regions with
         | Some k => k
         | None => VStr "N/A"
         end
    else VStr "Unknown"
  else VStr "N/A".

(** Lines 512-517: the customer with the largest sum of payment values;
    "N/A" where [idxmax] raises. *)
Definition top_customer (df_paid : DataFrame) : value :=
  if Nat.ltb 0 (nrows df_paid)
     && has_col "customer_id" df_paid && has_col "payment_value" df_paid
  then match idxmax_sum "customer_id" "payment_value" df_paid with
       | Some k => k
       | None => VStr "N/A"
       end
  else VStr "N/A".


(* ---------------------------------------------------------------- *)
(** ** Vocabulary of the statements *)

(** Some value of the series parses under the format. *)
Definition parses_some (fmt : string) (s : list value) : Prop :=
  exists v, In v s /\ to_datetime_cell fmt v <> NA.

(** No value of the series parses under the format. *)
Definition parses_none (fmt : string) (s : list value) : Prop :=
  forall v, In v s -> to_datetime_cell fmt v = NA.

(** The candidate formats of a call: the ones given, or the defaults. *)
Definition formats_or_default (formats : option (list string)) : list string :=
  match formats with Some fs => fs | None => default_formats end.

(** Every key has at most one row. *)
Definition unique_on (on : string) (R : DataFrame) : Prop :=
  forall k, List.length (rows_with (cell R on) (nrows R) k) <= 1.

(** The right row joined to the left row [i], if any. *)
Definition match_row (on : string) (L R : DataFrame) (i : nat) : option nat :=
  hd_error (rows_with (cell R on) (nrows R) (cell L on i)).

(** The row positions kept by [payments_small]. *)
Definition payment_rows (df_payments : DataFrame) : list nat :=
  first_occurrences (cell df_payments "order_id") []
    (argsort_quicksort
       (cell df_payments "payment_installments")
       (quicksort_ties (column "payment_installments" df_payments))
       (seq 0 (nrows df_payments))).

(** Row [i0] of the payment table is a row of order [k] with the least
    installment count among the rows of [k]. *)
Definition least_installment_row (df_payments : DataFrame) (k : value)
           (i0 : nat) : Prop :=
  i0 < nrows df_payments
  /\ cell df_payments "order_id" i0 = k
  /\ (forall j, j < nrows df_payments -> cell df_payments "order_id" j = k ->
                value_leb (cell df_payments "payment_installments" i0)
                          (cell df_payments "payment_installments" j) = true).

(** Row [i0] of the payment table is, among the rows of order [k], the
    first in row order of those with the least installment count. *)
Definition smallest_installment_row (df_payments : DataFrame) (k : value)
           (i0 : nat) : Prop :=
  i0 < nrows df_payments
  /\ cell df_payments "order_id" i0 = k
  /\ (forall j, j < nrows df_payments -> cell df_payments "order_id" j = k ->
                value_leb (cell df_payments "payment_installments" i0)
                          (cell df_payments "payment_installments" j) = true)
  /\ (forall j, j < i0 -> cell df_payments "order_id" j = k ->
                value_leb (cell df_payments "payment_installments" j)
                          (cell df_payments "payment_installments" i0) = false).


(** Two distinct literal column names. *)
Ltac string_neq :=
  let H := fresh in intros H; apply String.eqb_eq in H; vm_compute in H;
                    discriminate H.

(** A lifecycle table that is joined (non-empty, with an order_id
    column) has the two columns that are aggregated. *)
Definition lifecycle_ok (df_lifecycle : DataFrame) : bool :=
  df_empty df_lifecycle
  || negb (has_col "order_id" df_lifecycle)
  || (has_col "event_timestamp" df_lifecycle
      && has_col "event_type" df_lifecycle).

(** Row positions of the lifecycle table in the order of
    [sort_values(["order_id", "event_timestamp"])]. *)
Definition lifecycle_order (df_lifecycle : DataFrame) : list nat :=
  argsort (cell df_lifecycle "order_id")
          (argsort (cell df_lifecycle "event_timestamp")
                   (seq 0 (nrows df_lifecycle))).

(** The aggregate of [lifecycle_agg], as a table. *)
Definition agg_table (sorted : DataFrame) : DataFrame :=
  let key := cell sorted "order_id" in
  let n := nrows sorted in
  let keys := group_keys key n in
  mkDF (List.length keys)
       [ ("order_id", keys);
         ("event_timestamp",
           map (fun k => agg_max (map (cell sorted "event_timestamp")
                                      (rows_with key n k))) keys);
         ("event_type",
           map (fun k => last_event_type
                           (map (cell sorted "event_type")
                                (rows_with key n k))) keys) ].

(** The de-duplicated customer table of [join_customers]. *)
Definition customers_dedup (df_customers : DataFrame) : DataFrame :=
  let cols := present_cols ["customer_id"; "customer_city"; "customer_state"]
                           df_customers in
  take (first_occurrences (cell (project cols df_customers) "customer_id") []
                          (seq 0 (nrows df_customers)))
       (project cols df_customers).

(** The tables handed to [enrich_join] by [prepare]. *)
Definition prepared_orders (df_orders : DataFrame) : DataFrame :=
  ensure_col
    (ensure_col (ensure_col (parse_order_dates df_orders) "order_id" (VStr ""))
                "customer_id" (VStr ""))
    "order_status" (VStr "").

Definition prepared_payments (df_payments : DataFrame) : DataFrame :=
  coerce_installments
    (ensure_col (ensure_col df_payments "order_id" (VStr ""))
                "payment_installments" (VNum 0)).

Definition prepared_customers (df_customers : DataFrame) : DataFrame :=
  ensure_col
    (ensure_col (ensure_col df_customers "customer_id" (VStr ""))
                "customer_city" NA)
    "customer_state" NA.

(** Names that a merge with right columns [ks] can create or rename. *)
Definition joined_names (ks : list string) : list string :=
  ks ++ map (fun d => (d ++ "_x")%string) ks
     ++ map (fun d => (d ++ "_y")%string) ks.

Definition keeps_name (c : string) (ks : list string) : bool :=
  negb (existsb (String.eqb c) (joined_names ks)).

Definition lifecycle_names : list string := ["event_timestamp"; "event_type"].

Definition customer_names : list string := ["customer_city"; "customer_state"].

Definition payment_names : list string :=
  ["payment_type"; "payment_installments"; "payment_value"].

(** The three joins of [enrich_join], before the payment default. *)
Definition join_all (df_orders df_lifecycle df_customers df_payments
                     : DataFrame) : exc DataFrame :=
  e1 <- join_lifecycle df_orders df_lifecycle ;;
  e2 <- join_customers e1 df_customers ;;
  join_payments e2 df_payments.

(** Columns that the three joins neither create nor rename. *)
Definition kept_by_joins (c : string) : bool :=
  keeps_name c lifecycle_names && keeps_name c customer_names
  && keeps_name c payment_names.

(** Columns that no stage after the loading creates, renames or
    overwrites. *)
Definition untouched (c : string) : bool :=
  kept_by_joins c
  && negb (String.eqb c "month") && negb (String.eqb c "lifecycle_month")
  && negb (String.eqb c "processing_time_days").

(** A cell of a date-time column: a timestamp, or missing. *)
Definition is_datetime (v : value) : bool :=
  match v with NA | VTime _ => true | _ => false end.

(** [m] is the greatest non-missing event_timestamp of the events of
    order [k]; it is missing when they all are. *)
Definition group_max_timestamp (L : DataFrame) (k m : value) : Prop :=
  (forall j, j < nrows L -> cell L "order_id" j = k ->
             cell L "event_timestamp" j <> NA ->
             value_leb (cell L "event_timestamp" j) m = true)
  /\ (m = NA -> forall j, j < nrows L -> cell L "order_id" j = k ->
                          cell L "event_timestamp" j = NA)
  /\ (m <> NA -> exists j, j < nrows L /\ cell L "order_id" j = k
                           /\ cell L "event_timestamp" j = m).

(** Row [i] is, among the events of order [k] that have an event_type,
    the last in the order of the timestamps, the later row among events
    with equal timestamps. *)
Definition last_typed_event (L : DataFrame) (k : value) (i : nat) : Prop :=
  i < nrows L /\ cell L "order_id" i = k /\ cell L "event_type" i <> NA
  /\ (forall j, j < nrows L -> cell L "order_id" j = k ->
                cell L "event_type" j <> NA ->
                value_leb (cell L "event_timestamp" j)
                          (cell L "event_timestamp" i) = true)
  /\ (forall j, i < j -> j < nrows L -> cell L "order_id" j = k ->
                cell L "event_type" j <> NA ->
                value_leb (cell L "event_timestamp" i)
                          (cell L "event_timestamp" j) = false).

(** Row [i] is the event of order [k] with the chronologically last
    non-missing timestamp, the later row among equal timestamps. *)
Definition last_timestamp_event (L : DataFrame) (k : value) (i : nat)
  : Prop :=
  i < nrows L /\ cell L "order_id" i = k /\ cell L "event_timestamp" i <> NA
  /\ (forall j, j < nrows L -> cell L "order_id" j = k ->
                cell L "event_timestamp" j <> NA ->
                value_leb (cell L "event_timestamp" j)
                          (cell L "event_timestamp" i) = true)
  /\ (forall j, i < j -> j < nrows L -> cell L "order_id" j = k ->
                cell L "event_timestamp" j <> NA ->
                value_leb (cell L "event_timestamp" i)
                          (cell L "event_timestamp" j) = false).

(** The wording of the specification for the aggregated event_type: it
    is the event_type of the event with the chronologically last
    non-missing timestamp of the group. *)
Definition event_type_of_last_timestamp (L : DataFrame) (k : value) : Prop :=
  forall agg r i,
    (sorted <- sort_values ["order_id"; "event_timestamp"] L ;;
     lifecycle_agg sorted) = Ret agg ->
    rows_with (cell agg "order_id") (nrows agg) k = [r] ->
    last_timestamp_event L k i ->
    cell agg "event_type" r = cell L "event_type" i.


(** Row [j0] is the first row of the table whose key is [k]. *)
Definition first_row_with (key : nat -> value) (n : nat) (k : value)
           (j0 : nat) : Prop :=
  j0 < n /\ key j0 = k /\ forall j, j < j0 -> key j <> k.

(** The column that [load_data] finds missing in a lifecycle table. *)
Definition missing_lifecycle_column (df_lifecycle : DataFrame) : string :=
  if has_col "event_timestamp" df_lifecycle then "event_type"
  else "event_timestamp".



(** The payment values of the rows of customer [k], added up. *)
Definition customer_total (df_paid : DataFrame) (k : value) : Qc :=
  series_sum (map (cell df_paid "payment_value")
                  (rows_with (cell df_paid "customer_id") (nrows df_paid) k)).

(* ---------------------------------------------------------------- *)
(** ** Columns and cells *)

Lemma stored_replace_same c s l :
  match find (fun p => String.eqb c (fst p)) (replace_col c s l) with
  | Some p => snd p = s
  | None => False
  end.
Proof.
  induction l as [|[c' s'] l IH]; simpl.
  - rewrite String.eqb_refl. reflexivity.
  - destruct (String.eqb c c') eqn:E; simpl; rewrite ?E; auto.
Qed.

Lemma stored_replace_other c c' s l :
  c' <> c ->
  find (fun p => String.eqb c' (fst p)) (replace_col c s l)
  = find (fun p => String.eqb c' (fst p)) l.
Proof.
  intros Hne. induction l as [|[d t] l IH]; simpl.
  - apply String.eqb_neq in Hne. rewrite Hne. reflexivity.
  - destruct (String.eqb c d) eqn:E; simpl.
    + apply String.eqb_eq in E. subst d.
      apply String.eqb_neq in Hne. rewrite Hne. reflexivity.
    + destruct (String.eqb c' d); auto.
Qed.

Lemma columns_replace c s l :
  map fst (replace_col c s l)
  = if existsb (String.eqb c) (map fst l) then map fst l else map fst l ++ [c].
Proof.
  induction l as [|[d t] l IH]; simpl; auto.
  destruct (String.eqb c d) eqn:E; simpl; auto.
  rewrite IH. destruct (existsb _ _); reflexivity.
Qed.


Lemma cell_assign_same c f df i :
  i < nrows df -> cell (assign c f df) c i = f i.
Proof.
  intros Hi. unfold cell, stored, assign; simpl.
  pose proof (stored_replace_same c (map f (seq 0 (nrows df))) (cols df)) as H.
  destruct (find _ _) as [p|]; [|contradiction].
  rewrite H.
  rewrite nth_indep with (d' := f 0) by (rewrite length_map, length_seq; lia).
  rewrite map_nth, seq_nth by lia. reflexivity.
Qed.

Lemma cell_assign_other c c' f df i :
  c' <> c -> cell (assign c f df) c' i = cell df c' i.
Proof.
  intros Hne. unfold cell, stored, assign; simpl.
  rewrite stored_replace_other by assumption. reflexivity.
Qed.

Lemma has_col_assign_same c f df : has_col c (assign c f df) = true.
Proof.
  unfold has_col, columns, assign; simpl. rewrite columns_replace.
  destruct (existsb (String.eqb c) (map fst (cols df))) eqn:E; auto.
  rewrite existsb_app, E; simpl. rewrite String.eqb_refl. reflexivity.
Qed.

Lemma has_col_assign_other c c' f df :
  c' <> c -> has_col c' (assign c f df) = has_col c' df.
Proof.
  intros Hne. unfold has_col, columns, assign; simpl. rewrite columns_replace.
  destruct (existsb (String.eqb c) _); auto.
  rewrite existsb_app; simpl.
  apply String.eqb_neq in Hne. rewrite Hne, !orb_false_r. reflexivity.
Qed.

Lemma has_col_assign c c' f df :
  has_col c' (assign c f df) = has_col c' df || String.eqb c' c.
Proof.
  destruct (String.eqb c' c) eqn:E.
  - apply String.eqb_eq in E. subst. rewrite has_col_assign_same, orb_true_r.
    reflexivity.
  - apply String.eqb_neq in E. rewrite has_col_assign_other, orb_false_r; auto.
Qed.

Lemma cell_no_col c df i : has_col c df = false -> cell df c i = NA.
Proof.
  unfold has_col, columns, cell, stored. intros H.
  destruct (find _ _) as [p|] eqn:F; auto.
  apply find_some in F. destruct F as [Hin Heq].
  assert (existsb (String.eqb c) (map fst (cols df)) = true) as X.
  { apply existsb_exists. exists (fst p). split; auto. apply in_map; auto. }
  congruence.
Qed.

(* ---------------------------------------------------------------- *)
(** ** The Column Guarantor *)

Lemma has_col_ensure_col df col default :
  has_col col (ensure_col df col default) = true.
Proof.
  unfold ensure_col. destruct (has_col col df) eqn:E; simpl; auto.
  apply has_col_assign_same.
Qed.

Lemma has_col_ensure_col_mono df col default c :
  has_col c df = true -> has_col c (ensure_col df col default) = true.
Proof.
  unfold ensure_col. intros H. destruct (has_col col df); simpl; auto.
  rewrite has_col_assign, H. reflexivity.
Qed.

Lemma nrows_ensure_col df col default :
  nrows (ensure_col df col default) = nrows df.
Proof. unfold ensure_col. destruct (has_col col df); reflexivity. Qed.

Lemma cell_ensure_col_new df col default i :
  has_col col df = false -> i < nrows df ->
  cell (ensure_col df col default) col i = default.
Proof.
  intros H Hi. unfold ensure_col. rewrite H. simpl.
  apply cell_assign_same; assumption.
Qed.


(** C9. [ensure_col] is a total function of the table, the column name and
    the default; the table it returns has the column and as many rows as
    before; and calling it again with the same arguments changes nothing. *)
Theorem ensure_col_idempotent (df : DataFrame) (col : string) (default : value) :
  ensure_col (ensure_col df col default) col default = ensure_col df col default
  /\ has_col col (ensure_col df col default) = true
  /\ nrows (ensure_col df col default) = nrows df.
Proof.
  split; [|split].
  - unfold ensure_col at 1. rewrite has_col_ensure_col. reflexivity.
  - apply has_col_ensure_col.
  - apply nrows_ensure_col.
Qed.

(* ---------------------------------------------------------------- *)
(** ** The Table Loader *)

(** C8. [safe_read_csv] returns a table for every path: the table read
    when [pd.read_csv] succeeds, and the empty table, with zero rows and
    no columns, when it raises [FileNotFoundError] or any other
    exception. *)
Theorem safe_read_csv_total (path : string) :
  (forall df, read_csv path = Ret df -> safe_read_csv path = df)
  /\ (forall e, read_csv path = Raise e ->
                safe_read_csv path = empty_df
                /\ nrows (safe_read_csv path) = 0
                /\ columns (safe_read_csv path) = []).
Proof.
  unfold safe_read_csv. split.
  - intros df ->. reflexivity.
  - intros e ->. destruct e; repeat split.
Qed.

(* ---------------------------------------------------------------- *)
(** ** The Timestamp Normalizer *)

Lemma existsb_notna_true fmt s :
  existsb notna (map (to_datetime_cell fmt) s) = true <-> parses_some fmt s.
Proof.
  rewrite existsb_exists. split.
  - intros [x [Hin Hx]]. apply in_map_iff in Hin. destruct Hin as [v [<- Hv]].
    exists v. split; auto. destruct (to_datetime_cell fmt v); discriminate.
  - intros [v [Hin Hv]]. exists (to_datetime_cell fmt v). split.
    + apply in_map; assumption.
    + destruct (to_datetime_cell fmt v); auto.
Qed.

Lemma existsb_notna_false fmt s :
  existsb notna (map (to_datetime_cell fmt) s) = false <-> parses_none fmt s.
Proof.
  split.
  - intros H v Hin. destruct (to_datetime_cell fmt v) eqn:E; auto;
      exfalso; apply not_true_iff_false in H; apply H;
      apply existsb_notna_true; exists v; split; auto; rewrite E; discriminate.
  - intros H. apply not_true_iff_false. intros Ht.
    apply existsb_notna_true in Ht. destruct Ht as [v [Hin Hv]]. auto.
Qed.

Lemma try_formats_first pre fmt post s :
  Forall (fun g => parses_none g s) pre ->
  parses_some fmt s ->
  try_formats (pre ++ fmt :: post) s = map (to_datetime_cell fmt) s.
Proof.
  intros Hpre Hsome. induction Hpre as [|g pre Hg _ IH]; simpl.
  - apply existsb_notna_true in Hsome. rewrite Hsome. reflexivity.
  - apply existsb_notna_false in Hg. rewrite Hg. exact IH.
Qed.

Lemma try_formats_none formats s :
  Forall (fun g => parses_none g s) formats ->
  try_formats formats s = to_datetime_generic s.
Proof.
  induction 1 as [|g fs Hg _ IH]; simpl; auto.
  apply existsb_notna_false in Hg. rewrite Hg. exact IH.
Qed.

Lemma length_try_formats formats s :
  List.length (try_formats formats s) = List.length s.
Proof.
  induction formats as [|f fs IH]; simpl.
  - unfold to_datetime_generic. apply length_map.
  - destruct (existsb _ _); auto. apply length_map.
Qed.

(** C5. [to_datetime_safe] returns a date-time series.  On a non-empty
    column it is the column parsed under the first candidate format that
    parses at least one value, the values that fail under that format
    being missing; it is the format-free parse of the column when no
    candidate parses any value.  On an empty column, or none, it is the
    empty series. *)
Theorem to_datetime_safe_first_format
        (series : list value) (formats : option (list string)) :
  dtype (to_datetime_safe (Some series) formats) = datetime64
  /\ (series = [] -> values (to_datetime_safe (Some series) formats) = [])
  /\ values (to_datetime_safe None formats) = []
  /\ (series <> [] ->
      (forall pre fmt post,
          formats_or_default formats = pre ++ fmt :: post ->
          Forall (fun g => parses_none g series) pre ->
          parses_some fmt series ->
          values (to_datetime_safe (Some series) formats)
          = map (to_datetime_cell fmt) series)
      /\ (Forall (fun g => parses_none g series) (formats_or_default formats) ->
          values (to_datetime_safe (Some series) formats)
          = to_datetime_generic series)).
Proof.
  unfold to_datetime_safe, formats_or_default.
  split; [|split; [|split]].
  - destruct (Nat.eqb _ _); reflexivity.
  - intros ->. reflexivity.
  - reflexivity.
  - intros Hne. destruct series as [|v s]; [congruence|]. simpl Nat.eqb. cbv iota.
    split.
    + intros pre fmt post Heq Hpre Hsome. simpl values.
      destruct formats; rewrite Heq; apply try_formats_first; assumption.
    + intros Hnone. simpl values.
      destruct formats; apply try_formats_none; assumption.
Qed.


(* ---------------------------------------------------------------- *)
(** ** Equality and order of cells *)

Lemma value_eqb_eq a b : value_eqb a b = true <-> a = b.
Proof.
  destruct a as [|s|p|t], b as [|s'|p'|t']; simpl;
    try (split; [discriminate | congruence]).
  - split; reflexivity.
  - rewrite String.eqb_eq. split; congruence.
  - rewrite Qeq_bool_iff. split.
    + intros H. apply Qc_is_canon in H. congruence.
    + intros H. injection H as ->. reflexivity.
  - rewrite Z.eqb_eq. split; congruence.
Qed.

Lemma value_eqb_refl a : value_eqb a a = true.
Proof. apply value_eqb_eq. reflexivity. Qed.

Lemma value_eqb_neq a b : value_eqb a b = false <-> a <> b.
Proof.
  rewrite <- value_eqb_eq. destruct (value_eqb a b); split; congruence.
Qed.

Lemma string_compare_trans a :
  forall b c, String.compare a b <> Gt -> String.compare b c <> Gt ->
              String.compare a c <> Gt.
Proof.
  induction a as [|x a IH]; intros [|y b] [|z c]; simpl; try congruence.
  unfold Ascii.compare.
  destruct (N.compare_spec (N_of_ascii x) (N_of_ascii y));
    destruct (N.compare_spec (N_of_ascii y) (N_of_ascii z));
    destruct (N.compare_spec (N_of_ascii x) (N_of_ascii z));
    try congruence; try lia.
  apply IH.
Qed.

Lemma string_leb_trans a b c :
  String.leb a b = true -> String.leb b c = true -> String.leb a c = true.
Proof.
  unfold String.leb. intros H1 H2.
  pose proof (string_compare_trans a b c) as H.
  destruct (String.compare a b); try discriminate;
    destruct (String.compare b c); try discriminate;
    destruct (String.compare a c); auto; exfalso; apply H; congruence.
Qed.

Lemma value_leb_total a b : value_leb a b = true \/ value_leb b a = true.
Proof.
  destruct a as [|s|p|t], b as [|s'|p'|t']; simpl; auto.
  - apply String.leb_total.
  - rewrite !Qle_bool_iff. destruct (Qlt_le_dec p p') as [H|H]; auto.
    left. apply Qlt_le_weak. assumption.
  - rewrite !Z.leb_le. lia.
Qed.

Lemma value_leb_trans a b c :
  value_leb a b = true -> value_leb b c = true -> value_leb a c = true.
Proof.
  destruct a as [|s|p|t], b as [|s'|p'|t'], c as [|s''|p''|t'']; simpl;
    try discriminate; auto.
  - apply string_leb_trans.
  - rewrite !Qle_bool_iff. apply Qle_trans.
  - rewrite !Z.leb_le. lia.
Qed.

Lemma value_leb_refl a : value_leb a a = true.
Proof. destruct (value_leb_total a a); assumption. Qed.

Lemma value_leb_NA a : value_leb a NA = true.
Proof. destruct a; reflexivity. Qed.

Lemma value_leb_NA_l a : value_leb NA a = true -> a = NA.
Proof. destruct a; simpl; congruence. Qed.

(* ---------------------------------------------------------------- *)
(** ** Stable insertion sort *)

Section SortFacts.
Context {A : Type} (leb : A -> A -> bool).
Hypothesis leb_total : forall a b, leb a b = true \/ leb b a = true.
Hypothesis leb_trans :
  forall a b c, leb a b = true -> leb b c = true -> leb a c = true.

Lemma leb_false_flip a b : leb a b = false -> leb b a = true.
Proof using leb_total. intros H. destruct (leb_total a b); congruence. Qed.

Lemma insert_perm x l : Permutation (insert leb x l) (x :: l).
Proof.
  induction l as [|y l IH]; simpl; auto.
  destruct (leb x y); auto.
  eapply perm_trans; [apply perm_skip, IH | apply perm_swap].
Qed.

Lemma isort_perm l : Permutation (isort leb l) l.
Proof.
  induction l as [|x l IH]; simpl; auto.
  eapply perm_trans; [apply insert_perm | apply perm_skip, IH].
Qed.

Lemma isort_in l x : In x (isort leb l) <-> In x l.
Proof.
  split; apply Permutation_in;
    [apply isort_perm | apply Permutation_sym, isort_perm].
Qed.

Lemma isort_nil l : isort leb l = [] -> l = [].
Proof.
  intros H. apply Permutation_nil. rewrite <- H. apply isort_perm.
Qed.

Lemma insert_front x l :
  (forall z, In z l -> leb x z = true) -> insert leb x l = x :: l.
Proof.
  destruct l as [|y l]; simpl; auto.
  intros H. rewrite (H y); auto.
Qed.

Lemma insert_sorted x l :
  StronglySorted (fun a b => leb a b = true) l ->
  StronglySorted (fun a b => leb a b = true) (insert leb x l).
Proof using leb_total leb_trans.
  induction 1 as [|y l Hs IH Hy]; simpl.
  - repeat constructor.
  - destruct (leb x y) eqn:E.
    + constructor; [constructor; assumption|].
      constructor; auto.
      rewrite Forall_forall in *. intros z Hz. eauto.
    + constructor; auto.
      rewrite Forall_forall in *. intros z Hz.
      apply (Permutation_in _ (insert_perm x l)) in Hz.
      destruct Hz as [<-|Hz]; auto. apply leb_false_flip; assumption.
Qed.

Lemma isort_sorted l :
  StronglySorted (fun a b => leb a b = true) (isort leb l).
Proof using leb_total leb_trans.
  induction l; simpl; [constructor | apply insert_sorted; assumption].
Qed.

Lemma filter_insert_out p x s :
  p x = false -> filter p (insert leb x s) = filter p s.
Proof.
  intros Hp. induction s as [|y s IH]; simpl.
  - rewrite Hp. reflexivity.
  - destruct (leb x y); simpl; rewrite ?Hp, ?IH; reflexivity.
Qed.

Lemma filter_insert_in p x s :
  StronglySorted (fun a b => leb a b = true) s ->
  p x = true -> filter p (insert leb x s) = insert leb x (filter p s).
Proof using leb_trans.
  intros Hs Hp. induction Hs as [|y s Hs IH Hy]; simpl.
  - rewrite Hp. reflexivity.
  - destruct (leb x y) eqn:E.
    + change (filter p (x :: y :: s)) with (filter p (x :: (y :: s))).
      cbn [filter]. rewrite Hp.
      symmetry. apply insert_front.
      intros z Hz.
      assert (In z (y :: s)) as Hin.
      { change (In z (filter p (y :: s))) in Hz.
        apply filter_In in Hz. destruct Hz; assumption. }
      destruct Hin as [<-|Hin]; auto.
      rewrite Forall_forall in Hy. eauto.
    + cbn [filter]. destruct (p y); simpl; rewrite ?E, IH; reflexivity.
Qed.

(** Filtering commutes with a stable sort. *)
Lemma filter_isort p l :
  filter p (isort leb l) = isort leb (filter p l).
Proof using leb_total leb_trans.
  induction l as [|x l IH]; simpl; auto.
  destruct (p x) eqn:Hp; simpl.
  - rewrite filter_insert_in, IH; auto. apply isort_sorted.
  - rewrite filter_insert_out, IH; auto.
Qed.

(** A list whose elements are all equivalent is left as it is. *)
Lemma isort_flat l :
  (forall x y, In x l -> In y l -> leb x y = true) -> isort leb l = l.
Proof.
  induction l as [|x l IH]; simpl; auto.
  intros H. rewrite IH by (intros; apply H; simpl; auto).
  apply insert_front. intros z Hz. apply H; simpl; auto.
Qed.

(** The head of the sorted list is the first of the least elements. *)
Lemma hd_isort l :
  l <> [] ->
  exists m rest l1 l2,
    isort leb l = m :: rest /\ l = l1 ++ m :: l2
    /\ (forall y, In y l1 -> leb y m = false)
    /\ (forall y, In y l2 -> leb m y = true).
Proof using leb_total leb_trans.
  induction l as [|x l IH]; [congruence|]. intros _.
  destruct l as [|x' l'].
  - exists x, [], [], []. simpl. repeat split; intros y [].
  - destruct IH as (m & rest & l1 & l2 & Hs & Hl & H1 & H2); [congruence|].
    change (isort leb (x :: x' :: l')) with (insert leb x (isort leb (x' :: l'))).
    rewrite Hs. simpl. destruct (leb x m) eqn:E.
    + exists x, (m :: rest), [], (x' :: l'). repeat split; auto.
      * intros y [].
      * intros y Hy. rewrite Hl in Hy. apply leb_trans with m; auto.
        apply in_app_or in Hy. destruct Hy as [Hy|[<-|Hy]]; auto.
        -- apply leb_false_flip; auto.
        -- destruct (leb_total m m); auto.
    + exists m, (insert leb x rest), (x :: l1), l2. repeat split; auto.
      * rewrite Hl. reflexivity.
      * intros y [<-|Hy]; auto.
Qed.

Lemma last_cons_ne (y : A) l d : l <> [] -> last (y :: l) d = last l d.
Proof. destruct l; [congruence | reflexivity]. Qed.

Lemma insert_ne x s : insert leb x s <> [].
Proof. destruct s; simpl; [|destruct (leb x a)]; congruence. Qed.

Lemma last_insert x s d :
  StronglySorted (fun a b => leb a b = true) s -> s <> [] ->
  last (insert leb x s) d = if leb x (last s d) then last s d else x.
Proof using leb_trans.
  induction 1 as [|y s Hs IH Hy]; [congruence|]. intros _.
  destruct s as [|z s'].
  - simpl. destruct (leb x y); reflexivity.
  - assert (leb y (last (z :: s') d) = true) as Hlast.
    { rewrite Forall_forall in Hy. apply Hy.
      destruct (exists_last (l := z :: s')) as (l0 & a & Ha); [congruence|].
      rewrite Ha, last_last. apply in_or_app. simpl; auto. }
    rewrite (last_cons_ne y (z :: s')) by congruence.
    change (insert leb x (y :: z :: s'))
      with (if leb x y then x :: y :: z :: s'
            else y :: insert leb x (z :: s')).
    destruct (leb x y) eqn:E.
    + rewrite !last_cons_ne by congruence.
      rewrite (leb_trans _ _ _ E Hlast). reflexivity.
    + rewrite last_cons_ne by apply insert_ne.
      apply IH. congruence.
Qed.

(** The last element of the sorted list is the last of the greatest
    elements. *)
Lemma last_isort l d :
  l <> [] ->
  exists l1 l2,
    l = l1 ++ last (isort leb l) d :: l2
    /\ (forall y, In y l1 -> leb y (last (isort leb l) d) = true)
    /\ (forall y, In y l2 -> leb (last (isort leb l) d) y = false).
Proof using leb_total leb_trans.
  induction l as [|x l IH]; [congruence|]. intros _.
  destruct l as [|x' l'].
  - exists [], []. simpl. repeat split; intros y [].
  - destruct IH as (l1 & l2 & Hl & H1 & H2); [congruence|].
    change (isort leb (x :: x' :: l')) with (insert leb x (isort leb (x' :: l'))).
    rewrite last_insert;
      [| apply isort_sorted | intros H; apply isort_nil in H; congruence].
    set (m := last (isort leb (x' :: l')) d) in *.
    destruct (leb x m) eqn:E.
    + exists (x :: l1), l2. repeat split; auto.
      * rewrite Hl at 1. reflexivity.
      * intros y [<-|Hy]; auto.
    + exists [], (x' :: l'). repeat split; auto.
      intros y Hy. destruct (leb x y) eqn:Exy; auto.
      rewrite <- E. symmetry. apply leb_trans with y; auto.
      rewrite Hl in Hy. apply in_app_or in Hy.
      destruct Hy as [Hy|[<-|Hy]]; auto.
      * destruct (leb_total m m); auto.
      * apply leb_false_flip; auto.
Qed.

End SortFacts.


(* ---------------------------------------------------------------- *)
(** ** Row positions *)

Lemma nth_map_in {A B : Type} (f : A -> B) l i d d' :
  i < List.length l -> nth i (map f l) d = f (nth i l d').
Proof.
  intros Hi. rewrite nth_indep with (d' := f d') by (rewrite length_map; lia).
  apply map_nth.
Qed.

Lemma nth_map_seq {A : Type} (f : nat -> A) n i d :
  i < n -> nth i (map f (seq 0 n)) d = f i.
Proof.
  intros Hi. rewrite (nth_map_in f _ _ d 0) by (rewrite length_seq; lia).
  rewrite seq_nth by lia. reflexivity.
Qed.

Lemma map_nth_seq {A : Type} (l : list A) (d : A) :
  map (fun j => nth j l d) (seq 0 (List.length l)) = l.
Proof.
  induction l as [|x l IH]; simpl; auto.
  rewrite <- seq_shift, map_map. simpl. rewrite IH. reflexivity.
Qed.

Lemma filter_nth_seq {A : Type} (p : A -> bool) (l : list A) (d : A) :
  map (fun j => nth j l d)
      (filter (fun j => p (nth j l d)) (seq 0 (List.length l)))
  = filter p l.
Proof.
  rewrite <- (filter_map_swap p (fun j => nth j l d)), map_nth_seq.
  reflexivity.
Qed.

Lemma filter_seq_ext (p q : nat -> bool) n :
  (forall i, i < n -> p i = q i) -> filter p (seq 0 n) = filter q (seq 0 n).
Proof.
  intros H. apply filter_ext_in. intros i Hi. apply in_seq in Hi.
  apply H. lia.
Qed.

Lemma rows_with_bound key n k j : In j (rows_with key n k) -> j < n.
Proof.
  unfold rows_with. intros H. apply filter_In in H. destruct H as [H _].
  apply in_seq in H. lia.
Qed.

Lemma rows_with_key key n k j : In j (rows_with key n k) -> key j = k.
Proof.
  unfold rows_with. intros H. apply filter_In in H. destruct H as [_ H].
  apply value_eqb_eq; assumption.
Qed.

Lemma rows_with_intro key n k j :
  j < n -> key j = k -> In j (rows_with key n k).
Proof.
  intros Hj Hk. unfold rows_with. apply filter_In. split.
  - apply in_seq. lia.
  - apply value_eqb_eq; assumption.
Qed.

(** Row positions are listed in increasing order. *)
Lemma seq_split_lt a n l1 m l2 :
  seq a n = l1 ++ m :: l2 ->
  (forall y, In y l1 -> y < m) /\ (forall y, In y l2 -> m < y).
Proof.
  revert a l1. induction n as [|n IH]; intros a l1 H; simpl in H.
  - destruct l1; discriminate.
  - destruct l1 as [|x l1]; simpl in H; injection H as Hx Hr.
    + subst m l2. split; [intros y []|]. intros y Hy.
      apply in_seq in Hy. lia.
    + subst x. destruct (IH _ _ Hr) as [H1 H2]. split; auto.
      intros y [<-|Hy]; auto.
      assert (In m (seq (S a) n)) as Hm.
      { rewrite Hr. apply in_or_app. simpl; auto. }
      apply in_seq in Hm. lia.
Qed.

Lemma filter_split {A : Type} (p : A -> bool) l l1 m l2 :
  filter p l = l1 ++ m :: l2 ->
  exists k1 k2, l = k1 ++ m :: k2 /\ l1 = filter p k1 /\ l2 = filter p k2.
Proof.
  revert l1. induction l as [|x l IH]; intros l1 H; simpl in H.
  - destruct l1; discriminate.
  - destruct (p x) eqn:Hp.
    + destruct l1 as [|y l1]; simpl in H; injection H as Hx Hr.
      * subst. exists [], l. simpl. auto.
      * subst y. destruct (IH _ Hr) as (k1 & k2 & -> & -> & ->).
        exists (x :: k1), k2. simpl. rewrite Hp. auto.
    + destruct (IH _ H) as (k1 & k2 & -> & -> & ->).
      exists (x :: k1), k2. simpl. rewrite Hp. auto.
Qed.

Lemma rows_with_split_lt key n k l1 m l2 :
  rows_with key n k = l1 ++ m :: l2 ->
  (forall y, In y l1 -> y < m) /\ (forall y, In y l2 -> m < y).
Proof.
  unfold rows_with. intros H.
  apply filter_split in H. destruct H as (k1 & k2 & Hs & -> & ->).
  apply seq_split_lt in Hs. destruct Hs as [H1 H2].
  split; intros y Hy; apply filter_In in Hy; destruct Hy; auto.
Qed.

(* ---------------------------------------------------------------- *)
(** ** [take] and [project] *)

Lemma has_col_take idxs df c : has_col c (take idxs df) = has_col c df.
Proof.
  unfold has_col, columns, take; simpl. rewrite map_map. reflexivity.
Qed.

Lemma stored_take idxs df c :
  stored c (take idxs df)
  = option_map (fun s => map (fun i => nth i s NA) idxs) (stored c df).
Proof.
  unfold stored, take; simpl.
  induction (cols df) as [|[d t] l IH]; simpl; auto.
  destruct (String.eqb c d); simpl; auto.
Qed.

Lemma cell_take idxs df c i :
  i < List.length idxs -> cell (take idxs df) c i = cell df c (nth i idxs 0).
Proof.
  intros Hi. unfold cell. rewrite stored_take.
  destruct (stored c df) as [s|]; simpl; auto.
  rewrite nth_indep with (d' := nth 0 s NA) by (rewrite length_map; lia).
  apply (map_nth (fun i => nth i s NA)).
Qed.

Lemma take_take tau sigma df :
  (forall r, In r tau -> r < List.length sigma) ->
  take tau (take sigma df) = take (map (fun r => nth r sigma 0) tau) df.
Proof.
  intros H. unfold take; simpl. rewrite length_map. f_equal.
  rewrite map_map. apply map_ext. intros [c s]; simpl. f_equal.
  rewrite map_map. apply map_ext_in. intros r Hr.
  rewrite nth_indep with (d' := nth 0 s NA) by (rewrite length_map; auto).
  apply (map_nth (fun i => nth i s NA)).
Qed.

Lemma has_col_project cs df c :
  has_col c (project cs df) = existsb (String.eqb c) cs.
Proof.
  unfold has_col, columns, project; simpl. rewrite map_map, map_id. reflexivity.
Qed.

Lemma cell_column df c i : i < nrows df -> nth i (column c df) NA = cell df c i.
Proof.
  intros Hi. unfold column.
  rewrite nth_indep with (d' := cell df c 0) by (rewrite length_map, length_seq; lia).
  rewrite map_nth, seq_nth by lia. reflexivity.
Qed.

Lemma cell_project cs df c i :
  existsb (String.eqb c) cs = true -> i < nrows df ->
  cell (project cs df) c i = cell df c i.
Proof.
  intros Hc Hi. unfold cell at 1, stored, project; simpl.
  induction cs as [|d cs IH]; simpl in *; [discriminate|].
  destruct (String.eqb c d) eqn:E; simpl.
  - apply String.eqb_eq in E. subst d. apply cell_column; assumption.
  - apply IH. assumption.
Qed.

(* ---------------------------------------------------------------- *)
(** ** First occurrences *)

Lemma first_occurrences_map (g : nat -> nat) key seen l :
  map g (first_occurrences (fun r => key (g r)) seen l)
  = first_occurrences key seen (map g l).
Proof.
  revert seen. induction l as [|i l IH]; intros seen; simpl; auto.
  destruct (existsb _ seen); simpl; rewrite IH; reflexivity.
Qed.

Lemma first_occurrences_ext key1 key2 seen l :
  (forall i, In i l -> key1 i = key2 i) ->
  first_occurrences key1 seen l = first_occurrences key2 seen l.
Proof.
  revert seen. induction l as [|i l IH]; intros seen H; simpl; auto.
  rewrite (H i) by (simpl; auto).
  destruct (existsb _ seen); [|f_equal]; apply IH; intros; apply H; simpl; auto.
Qed.

Lemma first_occurrences_incl key seen l i :
  In i (first_occurrences key seen l) -> In i l.
Proof.
  revert seen. induction l as [|j l IH]; intros seen; simpl; auto.
  destruct (existsb _ seen); simpl; [|intros [H|H]]; eauto.
Qed.

Lemma existsb_value_eqb k seen :
  existsb (value_eqb k) seen = true <-> In k seen.
Proof.
  rewrite existsb_exists. split.
  - intros [x [Hin Hx]]. apply value_eqb_eq in Hx. congruence.
  - intros H. exists k. split; auto. apply value_eqb_refl.
Qed.

(** Of the rows with key [k], [first_occurrences] keeps the first, unless
    the key was seen before. *)
Lemma first_occurrences_filter key k seen l :
  filter (fun i => value_eqb (key i) k) (first_occurrences key seen l)
  = if existsb (value_eqb k) seen then []
    else firstn 1 (filter (fun i => value_eqb (key i) k) l).
Proof.
  revert seen. induction l as [|i l IH]; intros seen; simpl.
  - destruct (existsb _ seen); reflexivity.
  - destruct (value_eqb (key i) k) eqn:Ek.
    + apply value_eqb_eq in Ek. subst k.
      destruct (existsb (value_eqb (key i)) seen) eqn:Es.
      * rewrite IH, Es. reflexivity.
      * simpl. rewrite value_eqb_refl, IH. simpl.
        rewrite value_eqb_refl. reflexivity.
    + destruct (existsb (value_eqb (key i)) seen) eqn:Es.
      * apply IH.
      * simpl. rewrite Ek, IH. simpl.
        assert (value_eqb k (key i) = false) as ->.
        { apply value_eqb_neq. apply value_eqb_neq in Ek. congruence. }
        reflexivity.
Qed.

Lemma length_firstn_1 {A : Type} (l : list A) : List.length (firstn 1 l) <= 1.
Proof. destruct l; simpl; lia. Qed.


(* ---------------------------------------------------------------- *)
(** ** Left joins on a key that is unique on the right *)

Lemma flat_map_singleton {A B : Type} (f : A -> list B) (g : A -> B) l :
  (forall x, f x = [g x]) -> flat_map f l = map g l.
Proof.
  intros H. induction l as [|x l IH]; simpl; auto. rewrite H, IH. reflexivity.
Qed.

Lemma join_pairs_unique on L R :
  unique_on on R ->
  join_pairs on L R = map (fun i => (i, match_row on L R i)) (seq 0 (nrows L)).
Proof.
  intros HU. unfold join_pairs. apply flat_map_singleton. intros i.
  unfold match_row. specialize (HU (cell L on i)).
  destruct (rows_with (cell R on) (nrows R) (cell L on i)) as [|j [|j' r]];
    simpl in *; auto. lia.
Qed.

Lemma find_app {A : Type} (p : A -> bool) l1 l2 :
  find p (l1 ++ l2) = match find p l1 with Some x => Some x | None => find p l2 end.
Proof.
  induction l1 as [|x l1 IH]; simpl; auto. destruct (p x); auto.
Qed.

Lemma find_renamed (ren : string -> string) (g : list value -> list value)
      (l : list (string * list value)) c c' :
  (forall d, In d (map fst l) -> String.eqb c' (ren d) = String.eqb c d) ->
  find (fun p => String.eqb c' (fst p)) (map (fun p => (ren (fst p), g (snd p))) l)
  = option_map (fun p => (ren (fst p), g (snd p)))
               (find (fun p => String.eqb c (fst p)) l).
Proof.
  induction l as [|[d t] l IH]; simpl; auto. intros H.
  rewrite (H d) by auto. destruct (String.eqb c d); simpl; auto.
Qed.

Lemma find_renamed_none (ren : string -> string) (g : list value -> list value)
      (l : list (string * list value)) c' :
  (forall d, In d (map fst l) -> String.eqb c' (ren d) = false) ->
  find (fun p => String.eqb c' (fst p)) (map (fun p => (ren (fst p), g (snd p))) l)
  = None.
Proof.
  induction l as [|[d t] l IH]; simpl; auto. intros H.
  rewrite (H d) by auto. auto.
Qed.

Lemma find_filter_key c on (l : list (string * list value)) :
  c <> on ->
  find (fun p => String.eqb c (fst p))
       (filter (fun p => negb (String.eqb (fst p) on)) l)
  = find (fun p => String.eqb c (fst p)) l.
Proof.
  intros Hne. induction l as [|[d t] l IH]; simpl; auto.
  destruct (String.eqb d on) eqn:E; simpl.
  - apply String.eqb_eq in E. subst d.
    apply String.eqb_neq in Hne. rewrite Hne. assumption.
  - destruct (String.eqb c d); auto.
Qed.

Lemma has_col_in c df : has_col c df = true <-> In c (columns df).
Proof.
  unfold has_col. rewrite existsb_exists. split.
  - intros [d [Hin Hd]]. apply String.eqb_eq in Hd. congruence.
  - intros H. exists c. split; auto. apply String.eqb_refl.
Qed.

Lemma left_name_keeps on R c d :
  (forall e, has_col e R = true -> e <> on -> c <> (e ++ "_x")%string) ->
  c = on \/ has_col c R = false ->
  String.eqb c (left_name on R d) = String.eqb c d.
Proof.
  intros Hx Hc. unfold left_name.
  destruct (String.eqb d on) eqn:Eo; simpl; auto.
  destruct (has_col d R) eqn:Er; auto.
  apply String.eqb_neq in Eo.
  assert (String.eqb c (d ++ "_x") = false) as ->.
  { apply String.eqb_neq. apply Hx; assumption. }
  symmetry. apply String.eqb_neq. intros ->.
  destruct Hc; congruence.
Qed.

Lemma nth_join_pairs on L R i :
  unique_on on R -> i < nrows L ->
  nth i (join_pairs on L R) (0, None) = (i, match_row on L R i).
Proof.
  intros HU Hi. rewrite join_pairs_unique by assumption.
  apply (nth_map_seq (fun i => (i, match_row on L R i))); assumption.
Qed.

Lemma length_join_pairs on L R :
  unique_on on R -> List.length (join_pairs on L R) = nrows L.
Proof.
  intros HU. rewrite join_pairs_unique by assumption.
  rewrite length_map, length_seq. reflexivity.
Qed.

(** A left join on a key unique on the right keeps the rows of the left
    table, one for one. *)
Lemma nrows_merge_left on L R M :
  unique_on on R -> merge_left on L R = Ret M -> nrows M = nrows L.
Proof.
  unfold merge_left. intros HU H.
  destruct (has_col on L && has_col on R); [|discriminate].
  injection H as <-. simpl. apply length_join_pairs; assumption.
Qed.

Lemma merge_left_Ret on L R :
  has_col on L = true -> has_col on R = true ->
  merge_left on L R
  = Ret (mkDF (List.length (join_pairs on L R)) (merge_cols on L R)).
Proof. intros H1 H2. unfold merge_left. rewrite H1, H2. reflexivity. Qed.

(** Cells of a column of the left table. *)
Lemma cell_merge_left_side on L R M c i :
  merge_left on L R = Ret M -> unique_on on R ->
  has_col c L = true ->
  c = on \/ has_col c R = false ->
  (forall e, has_col e R = true -> e <> on -> c <> (e ++ "_x")%string) ->
  i < nrows L ->
  cell M c i = cell L c i.
Proof.
  unfold merge_left. intros H HU HcL Hc Hx Hi.
  destruct (has_col on L && has_col on R); [|discriminate].
  injection H as <-. unfold cell at 1, stored; simpl. unfold merge_cols.
  rewrite find_app.
  rewrite (find_renamed (left_name on R)
             (fun s => map (fun ij : nat * option nat => nth (fst ij) s NA)
                           (join_pairs on L R)) _ c c)
    by (intros; apply left_name_keeps; assumption).
  unfold cell, stored.
  destruct (find (fun p => String.eqb c (fst p)) (cols L)) as [[d s]|] eqn:F; simpl.
  - rewrite (nth_map_in _ _ _ NA (0, None)) by (rewrite length_join_pairs; auto).
    rewrite nth_join_pairs by assumption. reflexivity.
  - exfalso. apply has_col_in in HcL. unfold columns in HcL.
    apply in_map_iff in HcL. destruct HcL as [[d s] [Hd Hin]]. simpl in Hd. subst d.
    apply (find_none _ _ F) in Hin. simpl in Hin.
    rewrite String.eqb_refl in Hin. discriminate.
Qed.

(** Cells of a column brought by the right table. *)
Lemma cell_merge_right_side on L R M c i :
  merge_left on L R = Ret M -> unique_on on R ->
  has_col c L = false -> c <> on ->
  (forall e, has_col e R = true -> e <> on ->
             c <> (e ++ "_x")%string /\ c <> (e ++ "_y")%string) ->
  i < nrows L ->
  cell M c i = match match_row on L R i with
               | Some j => cell R c j
               | None => NA
               end.
Proof.
  unfold merge_left. intros H HU HcL Hne Hxy Hi.
  destruct (has_col on L && has_col on R); [|discriminate].
  injection H as <-. unfold cell at 1, stored; simpl. unfold merge_cols.
  rewrite find_app.
  rewrite (find_renamed_none (left_name on R)
             (fun s => map (fun ij : nat * option nat => nth (fst ij) s NA)
                           (join_pairs on L R))).
  2:{ intros d Hd. apply String.eqb_neq. unfold left_name.
      assert (c <> d) as Hcd.
      { intros ->. apply has_col_in in Hd. congruence. }
      destruct (String.eqb d on) eqn:Eo; simpl; auto.
      destruct (has_col d R) eqn:Er; auto.
      apply String.eqb_neq in Eo. apply Hxy; assumption. }
  rewrite (find_renamed (right_name on L)
             (fun s => map (fun ij : nat * option nat =>
                              match snd ij with
                              | Some j => nth j s NA
                              | None => NA
                              end) (join_pairs on L R)) _ c c).
  2:{ intros d Hd. unfold right_name.
      destruct (has_col d L) eqn:El; auto.
      apply in_map_iff in Hd. destruct Hd as [[d' t] [Hd' Hin]]. simpl in Hd'. subst d'.
      apply filter_In in Hin. destruct Hin as [Hin Hno]. simpl in Hno.
      apply negb_true_iff, String.eqb_neq in Hno.
      assert (has_col d R = true) as HdR.
      { apply has_col_in. unfold columns. apply in_map_iff. exists (d, t). auto. }
      assert (String.eqb c (d ++ "_y") = false) as ->.
      { apply String.eqb_neq. apply Hxy; assumption. }
      symmetry. apply String.eqb_neq. intros ->. congruence. }
  rewrite find_filter_key by assumption.
  unfold cell, stored.
  destruct (find (fun p => String.eqb c (fst p)) (cols R)) as [[d s]|] eqn:F; simpl.
  - rewrite (nth_map_in _ _ _ NA (0, None)) by (rewrite length_join_pairs; auto).
    rewrite nth_join_pairs by assumption. reflexivity.
  - destruct (match_row on L R i); reflexivity.
Qed.

(** Columns of the merged table come from one side or the other. *)
Lemma has_col_merge_inv on L R M c :
  merge_left on L R = Ret M -> has_col c M = true ->
  (exists d, has_col d L = true /\ c = left_name on R d)
  \/ (exists d, has_col d R = true /\ d <> on /\ c = right_name on L d).
Proof.
  unfold merge_left. intros H Hc.
  destruct (has_col on L && has_col on R); [|discriminate].
  injection H as <-. apply has_col_in in Hc.
  unfold columns, merge_cols in Hc. simpl in Hc.
  rewrite map_app, !map_map in Hc. simpl in Hc.
  apply in_app_or in Hc. destruct Hc as [Hc|Hc]; apply in_map_iff in Hc;
    destruct Hc as [[d t] [Hd Hin]]; simpl in Hd; subst c.
  - left. exists d. split; auto. apply has_col_in. unfold columns.
    apply in_map_iff. exists (d, t). auto.
  - right. apply filter_In in Hin. destruct Hin as [Hin Hno]. simpl in Hno.
    apply negb_true_iff, String.eqb_neq in Hno.
    exists d. repeat split; auto. apply has_col_in. unfold columns.
    apply in_map_iff. exists (d, t). auto.
Qed.

Lemma has_col_merge_left_side on L R M c :
  merge_left on L R = Ret M -> has_col c L = true ->
  c = on \/ has_col c R = false -> has_col c M = true.
Proof.
  unfold merge_left. intros H HcL Hc.
  destruct (has_col on L && has_col on R); [|discriminate].
  injection H as <-. apply has_col_in. apply has_col_in in HcL.
  unfold columns, merge_cols in *. simpl. rewrite map_app, !map_map. simpl.
  apply in_or_app. left. apply in_map_iff in HcL.
  destruct HcL as [[d t] [Hd Hin]]. simpl in Hd. subst d.
  apply in_map_iff. exists (c, t). split; auto. simpl.
  unfold left_name. destruct Hc as [->|Hc].
  - rewrite String.eqb_refl. reflexivity.
  - rewrite Hc, andb_false_r. reflexivity.
Qed.


(* ---------------------------------------------------------------- *)
(** ** Keys after [drop_duplicates] and [groupby] *)

Lemma rows_with_take rho df c k :
  map (fun j => nth j rho 0)
      (rows_with (cell (take rho df) c) (List.length rho) k)
  = filter (fun i => value_eqb (cell df c i) k) rho.
Proof.
  unfold rows_with.
  rewrite (filter_seq_ext _ (fun j => value_eqb (cell df c (nth j rho 0)) k))
    by (intros; rewrite cell_take; auto).
  apply (filter_nth_seq (fun i => value_eqb (cell df c i) k)).
Qed.

Lemma unique_on_first_occurrences c df idxs :
  unique_on c (take (first_occurrences (cell df c) [] idxs) df).
Proof.
  intros k. simpl nrows.
  rewrite <- (length_map (fun j => nth j (first_occurrences (cell df c) [] idxs) 0)).
  rewrite rows_with_take, first_occurrences_filter. simpl.
  apply length_firstn_1.
Qed.

Lemma rows_with_project cs df c k :
  existsb (String.eqb c) cs = true ->
  rows_with (cell (project cs df) c) (nrows (project cs df)) k
  = rows_with (cell df c) (nrows df) k.
Proof.
  intros Hc. unfold rows_with. simpl nrows. apply filter_seq_ext.
  intros i Hi. rewrite cell_project by assumption. reflexivity.
Qed.

Lemma unique_on_project cs df c :
  existsb (String.eqb c) cs = true -> unique_on c df ->
  unique_on c (project cs df).
Proof.
  intros Hc HU k. rewrite rows_with_project by assumption. apply HU.
Qed.

Lemma filter_filter_le {A : Type} (p q : A -> bool) l :
  List.length (filter p (filter q l)) <= List.length (filter p l).
Proof.
  induction l as [|x l IH]; simpl; auto.
  destruct (q x); simpl; destruct (p x); simpl; lia.
Qed.

Lemma group_keys_count key n k :
  List.length (filter (fun v => value_eqb v k) (group_keys key n)) <= 1.
Proof.
  unfold group_keys.
  rewrite (filter_isort value_leb value_leb_total value_leb_trans).
  rewrite (Permutation_length (isort_perm value_leb _)).
  eapply Nat.le_trans; [apply filter_filter_le|].
  rewrite (filter_map_swap (fun v => value_eqb v k) key), length_map.
  rewrite first_occurrences_filter. simpl. apply length_firstn_1.
Qed.

Lemma group_keys_in key n k :
  In k (group_keys key n) <-> k <> NA /\ exists j, j < n /\ key j = k.
Proof.
  unfold group_keys. rewrite isort_in, filter_In, in_map_iff. split.
  - intros [[j [Hj Hin]] Hk]. split.
    + intros ->. discriminate.
    + exists j. split; auto. apply first_occurrences_incl, in_seq in Hin. lia.
  - intros [Hk [j [Hj Hkey]]]. split; [|destruct k; auto; congruence].
    assert (filter (fun i => value_eqb (key i) k)
                   (first_occurrences key [] (seq 0 n)) <> []) as Hne.
    { rewrite first_occurrences_filter. simpl.
      assert (In j (filter (fun i => value_eqb (key i) k) (seq 0 n))) as Hin.
      { apply filter_In. split; [apply in_seq; lia | apply value_eqb_eq; auto]. }
      destruct (filter _ (seq 0 n)); [contradiction | discriminate]. }
    destruct (filter _ (first_occurrences _ _ _)) as [|i r] eqn:F; [congruence|].
    assert (In i (i :: r)) as Hi by (simpl; auto).
    rewrite <- F in Hi. apply filter_In in Hi. destruct Hi as [Hi Hik].
    exists i. split; auto. apply value_eqb_eq; assumption.
Qed.

(** Sorting, then dropping duplicates, keeps for every key the first of
    its rows in sorted order. *)
Lemma drop_duplicates_take sigma df c :
  has_col c df = true ->
  drop_duplicates c (take sigma df)
  = Ret (take (first_occurrences (cell df c) [] sigma) df).
Proof.
  intros Hc. unfold drop_duplicates. rewrite has_col_take, Hc. f_equal.
  simpl nrows.
  rewrite take_take.
  2:{ intros r Hr. apply first_occurrences_incl, in_seq in Hr. lia. }
  f_equal.
  rewrite (first_occurrences_ext _ (fun r => cell df c (nth r sigma 0)))
    by (intros i Hi; apply in_seq in Hi; apply cell_take; lia).
  rewrite first_occurrences_map, map_nth_seq. reflexivity.
Qed.

Lemma first_missing_none cs df :
  forallb (fun c => has_col c df) cs = true -> first_missing cs df = None.
Proof.
  unfold first_missing. induction cs as [|c cs IH]; simpl; auto.
  intros H. apply andb_prop in H. destruct H as [H1 H2].
  rewrite H1. simpl. auto.
Qed.

Lemma first_missing_some cs df :
  forallb (fun c => has_col c df) cs = false ->
  exists c, first_missing cs df = Some c.
Proof.
  unfold first_missing. induction cs as [|c cs IH]; simpl; [discriminate|].
  destruct (has_col c df); simpl; eauto.
Qed.

Lemma payments_small_Ret P :
  has_col "order_id" P = true -> has_col "payment_installments" P = true ->
  payments_small P = Ret (take (payment_rows P) P).
Proof.
  intros Ho Hp. unfold payments_small, sort_values_quicksort.
  rewrite Hp. cbn [bind]. apply drop_duplicates_take. assumption.
Qed.

Lemma argsort_total (key : nat -> value) i j :
  value_leb (key i) (key j) = true \/ value_leb (key j) (key i) = true.
Proof. apply value_leb_total. Qed.

Lemma argsort_trans (key : nat -> value) (i j l : nat) :
  value_leb (key i) (key j) = true -> value_leb (key j) (key l) = true ->
  value_leb (key i) (key l) = true.
Proof. apply value_leb_trans. Qed.

Lemma filter_argsort p key idxs :
  filter p (argsort key idxs) = argsort key (filter p idxs).
Proof.
  unfold argsort.
  apply (filter_isort (fun i j => value_leb (key i) (key j))
                      (argsort_total key) (argsort_trans key)).
Qed.

Lemma quicksort_leb_key key rank i j :
  quicksort_leb key rank i j = true -> value_leb (key i) (key j) = true.
Proof.
  unfold quicksort_leb. destruct (value_leb (key i) (key j)); auto.
Qed.

Lemma quicksort_leb_total key rank i j :
  quicksort_leb key rank i j = true \/ quicksort_leb key rank j i = true.
Proof.
  unfold quicksort_leb.
  destruct (value_leb (key i) (key j)) eqn:Eij;
    destruct (value_leb (key j) (key i)) eqn:Eji; auto.
  - destruct (Nat.leb (tie_rank key rank i) (tie_rank key rank j)) eqn:E;
      auto.
    right. apply Nat.leb_le. apply Nat.leb_gt in E. lia.
  - destruct (value_leb_total (key i) (key j)); congruence.
Qed.

Lemma quicksort_leb_trans key rank i j l :
  quicksort_leb key rank i j = true -> quicksort_leb key rank j l = true ->
  quicksort_leb key rank i l = true.
Proof.
  unfold quicksort_leb.
  destruct (value_leb (key i) (key j)) eqn:Eij; [|discriminate].
  destruct (value_leb (key j) (key l)) eqn:Ejl; [|intros _ H; discriminate H].
  rewrite (value_leb_trans _ _ _ Eij Ejl).
  destruct (value_leb (key l) (key i)) eqn:Eli; auto.
  rewrite (value_leb_trans _ _ _ Ejl Eli), (value_leb_trans _ _ _ Eli Eij).
  intros H1 H2. apply Nat.leb_le in H1, H2. apply Nat.leb_le. lia.
Qed.

Lemma filter_argsort_quicksort p key rank idxs :
  filter p (argsort_quicksort key rank idxs)
  = argsort_quicksort key rank (filter p idxs).
Proof.
  unfold argsort_quicksort.
  apply (filter_isort (quicksort_leb key rank)
                      (quicksort_leb_total key rank)
                      (quicksort_leb_trans key rank)).
Qed.


(* ---------------------------------------------------------------- *)
(** ** One payment row per order *)

Lemma map_singleton {A B : Type} (f : A -> B) l y :
  map f l = [y] -> exists x, l = [x] /\ f x = y.
Proof.
  destruct l as [|x [|x' l]]; simpl; try discriminate.
  intros H. injection H as H. eauto.
Qed.

Lemma payment_rows_filter P k :
  (exists j, j < nrows P /\ cell P "order_id" j = k) ->
  exists i0,
    filter (fun i => value_eqb (cell P "order_id" i) k) (payment_rows P) = [i0]
    /\ least_installment_row P k i0.
Proof.
  intros [j [Hj Hk]]. unfold payment_rows.
  rewrite first_occurrences_filter. simpl. rewrite filter_argsort_quicksort.
  fold (rows_with (cell P "order_id") (nrows P) k).
  assert (rows_with (cell P "order_id") (nrows P) k <> []) as Hne.
  { intros E. pose proof (rows_with_intro _ _ _ _ Hj Hk) as Hin.
    rewrite E in Hin. contradiction. }
  unfold argsort_quicksort.
  set (leb := quicksort_leb (cell P "payment_installments")
                (quicksort_ties (column "payment_installments" P))).
  destruct (hd_isort leb (quicksort_leb_total _ _) (quicksort_leb_trans _ _)
                     _ Hne)
    as (m & rest & l1 & l2 & Hs & Hl & H1 & H2).
  rewrite Hs. simpl. exists m. split; auto.
  assert (In m (rows_with (cell P "order_id") (nrows P) k)) as Hm.
  { rewrite Hl. apply in_or_app. simpl; auto. }
  split; [eapply rows_with_bound; eassumption|].
  split; [eapply rows_with_key; eassumption|].
  intros i Hi Hik. pose proof (rows_with_intro _ _ _ _ Hi Hik) as Hin.
  rewrite Hl in Hin. apply in_app_or in Hin.
  destruct Hin as [Hin|[Hin|Hin]].
  - specialize (H1 _ Hin).
    destruct (quicksort_leb_total
                (cell P "payment_installments")
                (quicksort_ties (column "payment_installments" P)) i m)
      as [H|H]; [unfold leb in H1; congruence|].
    apply quicksort_leb_key in H. exact H.
  - subst i. apply value_leb_refl.
  - apply (quicksort_leb_key _ _ _ _ (H2 _ Hin)).
Qed.

Lemma existsb_present_cols c cs df :
  existsb (String.eqb c) (present_cols cs df)
  = existsb (String.eqb c) cs && has_col c df.
Proof.
  unfold present_cols. induction cs as [|d cs IH]; simpl; auto.
  destruct (has_col d df) eqn:Ed; simpl; rewrite IH.
  - destruct (String.eqb c d) eqn:E; simpl; auto.
    apply String.eqb_eq in E. subst. rewrite Ed. reflexivity.
  - destruct (String.eqb c d) eqn:E; simpl; auto.
    apply String.eqb_eq in E. subst. rewrite Ed, andb_false_r. reflexivity.
Qed.

Lemma present_cols_in c cs df :
  existsb (String.eqb c) (present_cols cs df) = true -> In c cs.
Proof.
  rewrite existsb_present_cols. intros H. apply andb_prop in H.
  destruct H as [H _]. apply existsb_exists in H.
  destruct H as [d [Hin Hd]]. apply String.eqb_eq in Hd. congruence.
Qed.

Lemma payment_cols_suffix_free c e :
  In c ["order_id"; "payment_type"; "payment_installments"; "payment_value"] ->
  In e payment_cols ->
  c <> (e ++ "_x")%string /\ c <> (e ++ "_y")%string.
Proof.
  unfold payment_cols. simpl.
  intros [<-|[<-|[<-|[<-|[]]]]] [<-|[<-|[<-|[<-|[]]]]]; split; string_neq.
Qed.

Lemma join_payments_Ret enr P :
  df_empty P = false -> has_col "order_id" P = true ->
  has_col "payment_installments" P = true ->
  has_col "order_id" enr = true ->
  join_payments enr P
  = merge_left "order_id" enr
      (project (present_cols payment_cols (take (payment_rows P) P))
               (take (payment_rows P) P)).
Proof.
  intros He Ho Hp Hoe. unfold join_payments. rewrite He, Ho. cbn [negb andb].
  rewrite payments_small_Ret by assumption. cbn [bind].
  destruct (present_cols payment_cols (take (payment_rows P) P)) eqn:E; auto.
  exfalso.
  assert (existsb (String.eqb "order_id")
                  (present_cols payment_cols (take (payment_rows P) P)) = true) as X.
  { rewrite existsb_present_cols, has_col_take, Ho. reflexivity. }
  rewrite E in X. discriminate.
Qed.

Lemma unique_on_payments P :
  has_col "order_id" P = true ->
  unique_on "order_id"
    (project (present_cols payment_cols (take (payment_rows P) P))
             (take (payment_rows P) P)).
Proof.
  intros Ho. apply unique_on_project.
  - rewrite existsb_present_cols, has_col_take, Ho. reflexivity.
  - apply unique_on_first_occurrences.
Qed.


Lemma df_empty_false df c j :
  has_col c df = true -> j < nrows df -> df_empty df = false.
Proof.
  intros Hc Hj. unfold df_empty.
  apply has_col_in in Hc. unfold columns in Hc.
  destruct (cols df); [contradiction|].
  destruct (nrows df); [lia|]. reflexivity.
Qed.

Lemma payment_row_kept P k i0 :
  filter (fun i => value_eqb (cell P "order_id" i) k) (payment_rows P) = [i0] ->
  exists r,
    rows_with (cell (take (payment_rows P) P) "order_id")
              (nrows (take (payment_rows P) P)) k = [r]
    /\ forall c, cell (take (payment_rows P) P) c r = cell P c i0.
Proof.
  intros Hf. simpl nrows.
  pose proof (rows_with_take (payment_rows P) P "order_id" k) as Hm.
  rewrite Hf in Hm. apply map_singleton in Hm. destruct Hm as [r [Hr Hn]].
  exists r. split; auto. intros c.
  rewrite cell_take, Hn; auto.
  eapply rows_with_bound. rewrite Hr. simpl; auto.
Qed.

(** The row kept by [payments_small] for an order, and its cells in the
    joined table. *)
Lemma payment_row_selected
        (df_enriched df_payments : DataFrame) (k : value) :
  has_col "order_id" df_payments = true ->
  has_col "payment_installments" df_payments = true ->
  has_col "order_id" df_enriched = true ->
  (exists j, j < nrows df_payments /\ cell df_payments "order_id" j = k) ->
  exists i0 small joined,
    least_installment_row df_payments k i0
    /\ payments_small df_payments = Ret small
    /\ (exists r, rows_with (cell small "order_id") (nrows small) k = [r]
                  /\ forall c, cell small c r = cell df_payments c i0)
    /\ join_payments df_enriched df_payments = Ret joined
    /\ nrows joined = nrows df_enriched
    /\ (forall i c,
           i < nrows df_enriched -> cell df_enriched "order_id" i = k ->
           In c ["payment_type"; "payment_installments"; "payment_value"] ->
           has_col c df_enriched = false ->
           cell joined c i = cell df_payments c i0).
Proof.
  intros Ho Hp Hoe Hex.
  assert (df_empty df_payments = false) as He.
  { destruct Hex as [j [Hj _]]. eapply df_empty_false; eassumption. }
  destruct (payment_rows_filter _ _ Hex) as [i0 [Hf Hsm]].
  destruct (payment_row_kept _ _ _ Hf) as [r [Hr Hcell]].
  set (small := take (payment_rows df_payments) df_payments) in *.
  set (R := project (present_cols payment_cols small) small).
  assert (existsb (String.eqb "order_id") (present_cols payment_cols small) = true)
    as Hon.
  { rewrite existsb_present_cols. unfold small. rewrite has_col_take, Ho.
    reflexivity. }
  assert (has_col "order_id" R = true) as HoR.
  { unfold R. rewrite has_col_project. exact Hon. }
  pose proof (unique_on_payments df_payments Ho) as HU. fold small in HU. fold R in HU.
  pose proof (join_payments_Ret df_enriched df_payments He Ho Hp Hoe) as Hj.
  fold small in Hj. fold R in Hj.
  pose proof (merge_left_Ret "order_id" df_enriched R Hoe HoR) as HM.
  set (M := mkDF (List.length (join_pairs "order_id" df_enriched R))
                 (merge_cols "order_id" df_enriched R)) in *.
  exists i0, small, M. split; [exact Hsm|].
  split; [apply payments_small_Ret; assumption|].
  split; [exists r; auto|].
  split; [congruence|].
  split; [eapply nrows_merge_left; eassumption|].
  intros i c Hi Hk Hc HcE.
  assert (In c ["order_id"; "payment_type"; "payment_installments";
                "payment_value"]) as Hc4 by (right; exact Hc).
  rewrite (cell_merge_right_side "order_id" df_enriched R M c i HM HU HcE); auto.
  - unfold match_row. rewrite Hk. unfold R at 1 2.
    rewrite rows_with_project by exact Hon. rewrite Hr. simpl.
    destruct (existsb (String.eqb c) (present_cols payment_cols small)) eqn:Ec.
    + unfold R. rewrite cell_project; auto.
      eapply rows_with_bound. rewrite Hr. simpl; auto.
    + rewrite cell_no_col by (unfold R; rewrite has_col_project; exact Ec).
      symmetry. apply cell_no_col.
      rewrite existsb_present_cols in Ec. unfold small in Ec.
      rewrite has_col_take in Ec.
      assert (existsb (String.eqb c) payment_cols = true) as X.
      { apply existsb_exists. exists c. split; [exact Hc4 | apply String.eqb_refl]. }
      rewrite X in Ec. exact Ec.
  - simpl in Hc. destruct Hc as [<-|[<-|[<-|[]]]]; string_neq.
  - intros e He' _. unfold R in He'. rewrite has_col_project in He'.
    apply present_cols_in in He'. apply payment_cols_suffix_free; assumption.
Qed.



(* ---------------------------------------------------------------- *)
(** ** Coercion of the installment counts *)

Lemma nrows_coerce_installments P : nrows (coerce_installments P) = nrows P.
Proof. unfold coerce_installments. destruct (has_col _ P); reflexivity. Qed.

Lemma has_col_coerce_installments P c :
  has_col c (coerce_installments P) = has_col c P.
Proof.
  unfold coerce_installments.
  destruct (has_col "payment_installments" P) eqn:E; auto.
  rewrite has_col_assign.
  destruct (String.eqb c "payment_installments") eqn:Ec.
  - apply String.eqb_eq in Ec. subst c. rewrite E. reflexivity.
  - apply orb_false_r.
Qed.

Lemma cell_coerce_installments_other P c i :
  c <> "payment_installments" ->
  cell (coerce_installments P) c i = cell P c i.
Proof.
  intros Hc. unfold coerce_installments.
  destruct (has_col _ P); auto. apply cell_assign_other; assumption.
Qed.

Lemma cell_coerce_installments P i :
  has_col "payment_installments" P = true -> i < nrows P ->
  cell (coerce_installments P) "payment_installments" i
  = fillna (VNum 0) (to_numeric_cell (cell P "payment_installments" i)).
Proof.
  intros Hc Hi. unfold coerce_installments. rewrite Hc.
  apply (cell_assign_same "payment_installments"
           (fun i => fillna (VNum 0)
                       (to_numeric_cell (cell P "payment_installments" i))));
    assumption.
Qed.

(** C10. [load_data] coerces payment_installments to numbers before the
    selection, every cell that [pd.to_numeric] cannot read becoming 0.
    So for an order [k] with a payment row whose installment cell is not
    a number, the other rows of [k] having positive counts, the row kept
    for [k] is one whose cell was not a number (that very row when it is
    the only such row of [k]), whatever order the sort gives to rows of
    equal counts: its coerced count is 0, and 0 is the
    payment_installments joined onto the order. *)
Theorem unparseable_installments_win
        (df_enriched df_payments : DataFrame) (k : value) (r0 : nat) :
  has_col "order_id" df_payments = true ->
  has_col "payment_installments" df_payments = true ->
  has_col "order_id" df_enriched = true ->
  r0 < nrows df_payments ->
  cell df_payments "order_id" r0 = k ->
  to_numeric_cell (cell df_payments "payment_installments" r0) = NA ->
  (forall j, j < nrows df_payments -> cell df_payments "order_id" j = k ->
             to_numeric_cell (cell df_payments "payment_installments" j) = NA
             \/ exists q, to_numeric_cell
                            (cell df_payments "payment_installments" j) = VNum q
                          /\ (0 < q)%Qc) ->
  (forall i, i < nrows df_payments ->
             cell (coerce_installments df_payments) "payment_installments" i
             = fillna (VNum 0)
                 (to_numeric_cell (cell df_payments "payment_installments" i)))
  /\ exists i0 small joined,
      least_installment_row (coerce_installments df_payments) k i0
      /\ to_numeric_cell (cell df_payments "payment_installments" i0) = NA
      /\ cell (coerce_installments df_payments) "payment_installments" i0 = VNum 0
      /\ ((forall j, j < nrows df_payments ->
                     cell df_payments "order_id" j = k ->
                     to_numeric_cell
                       (cell df_payments "payment_installments" j) = NA ->
                     j = r0) ->
          i0 = r0)
      /\ payments_small (coerce_installments df_payments) = Ret small
      /\ (exists r, rows_with (cell small "order_id") (nrows small) k = [r]
                    /\ forall c, cell small c r
                                 = cell (coerce_installments df_payments) c i0)
      /\ join_payments df_enriched (coerce_installments df_payments) = Ret joined
      /\ (forall i, i < nrows df_enriched ->
                    cell df_enriched "order_id" i = k ->
                    has_col "payment_installments" df_enriched = false ->
                    cell joined "payment_installments" i = VNum 0).
Proof.
  intros Ho Hp Hoe Hr0 Hk0 Hna Hpos.
  split; [intros i Hi; apply cell_coerce_installments; assumption|].
  set (P := coerce_installments df_payments).
  assert (forall j, cell P "order_id" j = cell df_payments "order_id" j) as Hkey.
  { intros j. apply cell_coerce_installments_other. string_neq. }
  destruct (payment_row_selected df_enriched P k)
    as (i0 & small & joined & Hsm & Hsmall & Hrow & Hjoin & _ & Hcells).
  - unfold P. rewrite has_col_coerce_installments. assumption.
  - unfold P. rewrite has_col_coerce_installments. assumption.
  - assumption.
  - exists r0. unfold P. rewrite nrows_coerce_installments, Hkey. auto.
  - pose proof Hsm as (Hi0 & Hki0 & Hmin).
    unfold P in Hi0. rewrite nrows_coerce_installments in Hi0.
    rewrite Hkey in Hki0.
    assert (cell P "payment_installments" r0 = VNum 0) as Hc0.
    { unfold P. rewrite cell_coerce_installments, Hna by assumption. reflexivity. }
    assert (to_numeric_cell (cell df_payments "payment_installments" i0) = NA)
      as Hna0.
    { destruct (Hpos i0 Hi0 Hki0) as [H|[q [Hq Hlt]]]; auto. exfalso.
      specialize (Hmin r0).
      unfold P in Hmin at 1. rewrite nrows_coerce_installments, Hkey in Hmin.
      specialize (Hmin Hr0 Hk0). rewrite Hc0 in Hmin.
      unfold P in Hmin. rewrite cell_coerce_installments, Hq in Hmin by assumption.
      simpl in Hmin. apply Qle_bool_iff in Hmin.
      apply (Qlt_not_le _ _ Hlt). exact Hmin. }
    assert (cell P "payment_installments" i0 = VNum 0) as Hci0.
    { unfold P. rewrite cell_coerce_installments, Hna0 by assumption. reflexivity. }
    exists i0, small, joined.
    split; [exact Hsm|].
    split; [assumption|]. split; [assumption|].
    split; [intros Honly; apply Honly; assumption|].
    split; [assumption|]. split; [assumption|]. split; [assumption|].
    intros i Hi Hk Hfree. rewrite (Hcells i "payment_installments"); auto.
    simpl. auto.
Qed.


(* ---------------------------------------------------------------- *)
(** ** The joins keep the rows of the order table *)

Lemma sort_lifecycle_Ret L :
  has_col "order_id" L = true -> has_col "event_timestamp" L = true ->
  sort_values ["order_id"; "event_timestamp"] L
  = Ret (take (lifecycle_order L) L).
Proof.
  intros Ho Ht. unfold sort_values.
  rewrite first_missing_none by (simpl; rewrite Ho, Ht; reflexivity).
  reflexivity.
Qed.

Lemma lifecycle_agg_Ret S :
  has_col "order_id" S = true -> has_col "event_timestamp" S = true ->
  has_col "event_type" S = true ->
  lifecycle_agg S = Ret (agg_table S).
Proof.
  intros Ho Ht He. unfold lifecycle_agg.
  rewrite first_missing_none by (simpl; rewrite Ho, Ht, He; reflexivity).
  reflexivity.
Qed.

Lemma has_col_agg_table S c :
  has_col c (agg_table S)
  = existsb (String.eqb c) ["order_id"; "event_timestamp"; "event_type"].
Proof. reflexivity. Qed.

Lemma cell_agg_key S j :
  cell (agg_table S) "order_id" j
  = nth j (group_keys (cell S "order_id") (nrows S)) NA.
Proof. reflexivity. Qed.

Lemma rows_with_agg_table S k :
  map (fun j => nth j (group_keys (cell S "order_id") (nrows S)) NA)
      (rows_with (cell (agg_table S) "order_id") (nrows (agg_table S)) k)
  = filter (fun v => value_eqb v k) (group_keys (cell S "order_id") (nrows S)).
Proof.
  unfold rows_with. simpl nrows.
  apply (filter_nth_seq (fun v => value_eqb v k)).
Qed.

Lemma unique_on_agg_table S : unique_on "order_id" (agg_table S).
Proof.
  intros k.
  rewrite <- (length_map
                (fun j => nth j (group_keys (cell S "order_id") (nrows S)) NA)).
  rewrite rows_with_agg_table. apply group_keys_count.
Qed.

Lemma join_lifecycle_Ret E L :
  has_col "order_id" E = true -> lifecycle_ok L = true ->
  join_lifecycle E L
  = if negb (df_empty L) && has_col "order_id" L
    then merge_left "order_id" E (agg_table (take (lifecycle_order L) L))
    else Ret E.
Proof.
  intros Ho Hok. unfold join_lifecycle, lifecycle_ok in *.
  destruct (df_empty L); simpl in *; auto.
  destruct (has_col "order_id" L) eqn:HoL; simpl in *; auto.
  apply andb_prop in Hok. destruct Hok as [Ht He].
  rewrite sort_lifecycle_Ret by assumption. cbn [bind].
  rewrite lifecycle_agg_Ret by (rewrite has_col_take; assumption).
  reflexivity.
Qed.

Lemma join_lifecycle_rows E L :
  has_col "order_id" E = true -> lifecycle_ok L = true ->
  exists M, join_lifecycle E L = Ret M
            /\ nrows M = nrows E
            /\ has_col "order_id" M = true
            /\ (has_col "customer_id" E = true -> has_col "customer_id" M = true).
Proof.
  intros Ho Hok. rewrite join_lifecycle_Ret by assumption.
  destruct (negb (df_empty L) && has_col "order_id" L).
  - pose proof (merge_left_Ret "order_id" E
                  (agg_table (take (lifecycle_order L) L)) Ho eq_refl) as HM.
    eexists. split; [exact HM|]. split; [|split].
    + eapply nrows_merge_left; [apply unique_on_agg_table | exact HM].
    + eapply has_col_merge_left_side; eauto.
    + intros Hc. eapply has_col_merge_left_side; eauto.
  - exists E. auto.
Qed.

Lemma join_customers_Ret E C :
  has_col "customer_id" C = true ->
  join_customers E C
  = if negb (df_empty C) && has_col "customer_id" E
    then merge_left "customer_id" E (customers_dedup C)
    else Ret E.
Proof.
  intros Hc. unfold join_customers.
  destruct (negb (df_empty C) && has_col "customer_id" E); auto.
  unfold drop_duplicates. rewrite has_col_project, existsb_present_cols, Hc.
  reflexivity.
Qed.

Lemma has_col_customers_dedup C c :
  has_col c (customers_dedup C)
  = existsb (String.eqb c) ["customer_id"; "customer_city"; "customer_state"]
    && has_col c C.
Proof.
  unfold customers_dedup. rewrite has_col_take, has_col_project.
  apply existsb_present_cols.
Qed.

Lemma join_customers_rows E C :
  has_col "customer_id" C = true -> has_col "order_id" E = true ->
  exists M, join_customers E C = Ret M
            /\ nrows M = nrows E
            /\ has_col "order_id" M = true.
Proof.
  intros Hc Ho. rewrite join_customers_Ret by assumption.
  destruct (negb (df_empty C) && has_col "customer_id" E) eqn:G.
  - apply andb_prop in G. destruct G as [_ HcE].
    assert (has_col "customer_id" (customers_dedup C) = true) as HcD.
    { rewrite has_col_customers_dedup, Hc. reflexivity. }
    pose proof (merge_left_Ret "customer_id" E (customers_dedup C) HcE HcD) as HM.
    eexists. split; [exact HM|]. split.
    + eapply nrows_merge_left; [|exact HM].
      apply unique_on_first_occurrences.
    + eapply has_col_merge_left_side; eauto. right.
      rewrite has_col_customers_dedup. reflexivity.
  - exists E. auto.
Qed.

Lemma join_payments_rows E P :
  has_col "order_id" P = true -> has_col "payment_installments" P = true ->
  has_col "order_id" E = true ->
  exists M, join_payments E P = Ret M /\ nrows M = nrows E.
Proof.
  intros Ho Hp HoE. destruct (df_empty P) eqn:He.
  - unfold join_payments. rewrite He. simpl. eauto.
  - rewrite join_payments_Ret by assumption.
    assert (has_col "order_id"
              (project (present_cols payment_cols (take (payment_rows P) P))
                       (take (payment_rows P) P)) = true) as HoR.
    { rewrite has_col_project, existsb_present_cols, has_col_take, Ho.
      reflexivity. }
    pose proof (merge_left_Ret "order_id" E _ HoE HoR) as HM.
    eexists. split; [exact HM|].
    eapply nrows_merge_left; [|exact HM]. apply unique_on_payments; assumption.
Qed.




(* ---------------------------------------------------------------- *)
(** ** Preparation of the loaded tables *)

Lemma has_col_parse_dates col df c :
  has_col col df = true -> has_col c (parse_dates col df) = has_col c df.
Proof.
  intros H. unfold parse_dates, set_col. rewrite has_col_assign.
  destruct (String.eqb c col) eqn:E; [|apply orb_false_r].
  apply String.eqb_eq in E. subst. rewrite H. reflexivity.
Qed.

Lemma parse_fold_cols cs df c :
  has_col c (fold_left (fun df col =>
                          if has_col col df then parse_dates col df else df)
                       cs df)
  = has_col c df.
Proof.
  revert df. induction cs as [|col cs IH]; intros df; simpl; auto.
  rewrite IH. destruct (has_col col df) eqn:E; auto.
  apply has_col_parse_dates; assumption.
Qed.

Lemma parse_fold_nrows cs df :
  nrows (fold_left (fun df col =>
                      if has_col col df then parse_dates col df else df)
                   cs df)
  = nrows df.
Proof.
  revert df. induction cs as [|col cs IH]; intros df; simpl; auto.
  rewrite IH. destruct (has_col col df); reflexivity.
Qed.

Lemma has_col_parse_order_dates df c :
  has_col c (parse_order_dates df) = has_col c df.
Proof.
  unfold parse_order_dates. destruct (negb (df_empty df)); auto.
  apply parse_fold_cols.
Qed.

Lemma nrows_parse_order_dates df : nrows (parse_order_dates df) = nrows df.
Proof.
  unfold parse_order_dates. destruct (negb (df_empty df)); auto.
  apply parse_fold_nrows.
Qed.

Lemma has_col_parse_lifecycle_dates df c :
  has_col c (parse_lifecycle_dates df) = has_col c df.
Proof.
  unfold parse_lifecycle_dates.
  destruct (negb (df_empty df)); simpl; auto.
  destruct (has_col "event_timestamp" df) eqn:E; auto.
  apply has_col_parse_dates; assumption.
Qed.

Lemma nrows_parse_lifecycle_dates df :
  nrows (parse_lifecycle_dates df) = nrows df.
Proof.
  unfold parse_lifecycle_dates.
  destruct (negb (df_empty df) && has_col "event_timestamp" df); reflexivity.
Qed.

Lemma lifecycle_ok_parse df :
  lifecycle_ok df = true -> lifecycle_ok (parse_lifecycle_dates df) = true.
Proof.
  unfold lifecycle_ok. rewrite !has_col_parse_lifecycle_dates.
  destruct (df_empty df) eqn:E; simpl.
  - intros _. unfold parse_lifecycle_dates. rewrite E. simpl. rewrite E.
    reflexivity.
  - intros H. destruct (df_empty (parse_lifecycle_dates df)); simpl; auto.
Qed.




Lemma prepare_unfold P Pr C Se O L :
  prepare P Pr C Se O L
  = (df_enriched <- enrich_join (prepared_orders O) (parse_lifecycle_dates L)
                                (prepared_customers C) (prepared_payments P) ;;
     Ret (mkLoaded (prepared_payments P)
                   (ensure_col (ensure_col Pr "product_id" (VStr ""))
                               "product_category_name" (VStr "Unknown"))
                   (prepared_customers C) Se (prepared_orders O)
                   (parse_lifecycle_dates L)
                   (add_processing_time (add_months df_enriched)))).
Proof. reflexivity. Qed.

Lemma nrows_prepared_orders O : nrows (prepared_orders O) = nrows O.
Proof.
  unfold prepared_orders. rewrite !nrows_ensure_col.
  apply nrows_parse_order_dates.
Qed.

Lemma has_col_prepared_orders_id O :
  has_col "order_id" (prepared_orders O) = true.
Proof.
  unfold prepared_orders.
  do 2 apply has_col_ensure_col_mono. apply has_col_ensure_col.
Qed.

Lemma has_col_prepared_payments P :
  has_col "order_id" (prepared_payments P) = true
  /\ has_col "payment_installments" (prepared_payments P) = true.
Proof.
  unfold prepared_payments. rewrite !has_col_coerce_installments. split.
  - apply has_col_ensure_col_mono. apply has_col_ensure_col.
  - apply has_col_ensure_col.
Qed.

Lemma has_col_prepared_customers C :
  has_col "customer_id" (prepared_customers C) = true.
Proof.
  unfold prepared_customers.
  do 2 apply has_col_ensure_col_mono. apply has_col_ensure_col.
Qed.



(* ---------------------------------------------------------------- *)
(** ** Columns that the joins leave alone *)

Lemma keeps_name_spec c ks d :
  keeps_name c ks = true -> In d ks ->
  c <> d /\ c <> (d ++ "_x")%string /\ c <> (d ++ "_y")%string.
Proof.
  unfold keeps_name, joined_names. intros H Hd.
  apply negb_true_iff in H.
  assert (forall e, In e (ks ++ map (fun d => (d ++ "_x")%string) ks
                             ++ map (fun d => (d ++ "_y")%string) ks) ->
                    c <> e) as X.
  { intros e He ->.
    assert (existsb (String.eqb e)
              (ks ++ map (fun d => (d ++ "_x")%string) ks
                  ++ map (fun d => (d ++ "_y")%string) ks) = true) as Y.
    { apply existsb_exists. exists e. split; auto. apply String.eqb_refl. }
    congruence. }
  repeat split; apply X.
  - apply in_or_app. auto.
  - apply in_or_app. right. apply in_or_app. left.
    apply in_map_iff. eauto.
  - apply in_or_app. right. apply in_or_app. right.
    apply in_map_iff. eauto.
Qed.

Lemma merge_keep on L R M ks c :
  merge_left on L R = Ret M -> unique_on on R ->
  (forall d, has_col d R = true -> d <> on -> In d ks) ->
  keeps_name c ks = true ->
  has_col c M = has_col c L
  /\ forall i, i < nrows L -> cell M c i = cell L c i.
Proof.
  intros HM HU Hks Hkeep.
  assert (forall e, has_col e R = true -> e <> on ->
                    c <> e /\ c <> (e ++ "_x")%string /\ c <> (e ++ "_y")%string)
    as F2.
  { intros e He Hne. apply keeps_name_spec with ks; auto. }
  assert (c = on \/ has_col c R = false) as F1.
  { destruct (String.eqb c on) eqn:E; [apply String.eqb_eq in E; auto|].
    apply String.eqb_neq in E. right.
    destruct (has_col c R) eqn:Hc; auto.
    destruct (F2 c Hc E) as [X _]. congruence. }
  assert (has_col c M = has_col c L) as Hcol.
  { destruct (has_col c L) eqn:HcL.
    - eapply has_col_merge_left_side; eassumption.
    - destruct (has_col c M) eqn:HcM; auto. exfalso.
      destruct (has_col_merge_inv _ _ _ _ _ HM HcM)
        as [[d [Hd Hc]]|[d [Hd [Hne Hc]]]].
      + unfold left_name in Hc.
        destruct (negb (String.eqb d on) && has_col d R) eqn:G.
        * apply andb_prop in G. destruct G as [G1 G2].
          apply negb_true_iff, String.eqb_neq in G1.
          destruct (F2 d G2 G1) as (_ & X & _). congruence.
        * congruence.
      + unfold right_name in Hc. destruct (F2 d Hd Hne) as (X & _ & Y).
        destruct (has_col d L); congruence. }
  split; auto. intros i Hi.
  destruct (has_col c L) eqn:HcL.
  - eapply cell_merge_left_side; eauto.
    intros e He Hne. apply (F2 e He Hne).
  - rewrite !cell_no_col; auto.
Qed.

Lemma in_existsb c cs : existsb (String.eqb c) cs = true -> In c cs.
Proof.
  intros H. apply existsb_exists in H. destruct H as [d [Hin Hd]].
  apply String.eqb_eq in Hd. congruence.
Qed.

Lemma join_lifecycle_keep E L M c :
  has_col "order_id" E = true -> lifecycle_ok L = true ->
  join_lifecycle E L = Ret M ->
  keeps_name c lifecycle_names = true ->
  has_col c M = has_col c E
  /\ forall i, i < nrows E -> cell M c i = cell E c i.
Proof.
  intros Ho Hok HM Hk. rewrite join_lifecycle_Ret in HM by assumption.
  destruct (negb (df_empty L) && has_col "order_id" L).
  - eapply merge_keep; eauto.
    + apply unique_on_agg_table.
    + intros d Hd Hne. rewrite has_col_agg_table in Hd.
      apply in_existsb in Hd. simpl in Hd. unfold lifecycle_names. simpl.
      destruct Hd as [Hd|Hd]; [congruence | exact Hd].
  - injection HM as <-. auto.
Qed.

Lemma join_customers_keep E C M c :
  has_col "customer_id" C = true ->
  join_customers E C = Ret M ->
  keeps_name c customer_names = true ->
  has_col c M = has_col c E
  /\ forall i, i < nrows E -> cell M c i = cell E c i.
Proof.
  intros Hc HM Hk. rewrite join_customers_Ret in HM by assumption.
  destruct (negb (df_empty C) && has_col "customer_id" E).
  - eapply merge_keep; eauto.
    + apply unique_on_first_occurrences.
    + intros d Hd Hne. rewrite has_col_customers_dedup in Hd.
      apply andb_prop in Hd. destruct Hd as [Hd _].
      apply in_existsb in Hd. simpl in Hd. unfold customer_names. simpl.
      destruct Hd as [Hd|Hd]; [congruence | exact Hd].
  - injection HM as <-. auto.
Qed.

Lemma join_payments_keep E P M c :
  has_col "order_id" P = true -> has_col "payment_installments" P = true ->
  has_col "order_id" E = true ->
  join_payments E P = Ret M ->
  keeps_name c payment_names = true ->
  has_col c M = has_col c E
  /\ forall i, i < nrows E -> cell M c i = cell E c i.
Proof.
  intros Ho Hp HoE HM Hk. destruct (df_empty P) eqn:He.
  - unfold join_payments in HM. rewrite He in HM. simpl in HM.
    injection HM as <-. auto.
  - rewrite join_payments_Ret in HM by assumption.
    eapply merge_keep; eauto.
    + apply unique_on_payments; assumption.
    + intros d Hd Hne. rewrite has_col_project in Hd.
      apply present_cols_in in Hd. unfold payment_cols in Hd. simpl in Hd.
      unfold payment_names. simpl.
      destruct Hd as [Hd|Hd]; [congruence | exact Hd].
Qed.

Lemma normalize_keep E c :
  c <> "payment_value" ->
  has_col c (normalize_payment_value E) = has_col c E
  /\ forall i, cell (normalize_payment_value E) c i = cell E c i.
Proof.
  intros Hc. unfold normalize_payment_value.
  destruct (has_col "payment_value" E); split;
    try (apply has_col_assign_other; assumption);
    intros i; apply cell_assign_other; assumption.
Qed.

Lemma add_month_keep col name E c :
  c <> name ->
  has_col c (add_month col name E) = has_col c E
  /\ forall i, cell (add_month col name E) c i = cell E c i.
Proof.
  intros Hc. unfold add_month.
  destruct (has_col col E); split;
    try (apply has_col_assign_other; assumption);
    intros i; apply cell_assign_other; assumption.
Qed.

Lemma add_months_keep E c :
  c <> "month" -> c <> "lifecycle_month" ->
  has_col c (add_months E) = has_col c E
  /\ forall i, cell (add_months E) c i = cell E c i.
Proof.
  intros H1 H2. unfold add_months.
  destruct (add_month_keep "event_timestamp" "lifecycle_month"
              (add_month "order_purchase_timestamp" "month" E) c H2) as [A B].
  destruct (add_month_keep "order_purchase_timestamp" "month" E c H1) as [A' B'].
  split; [congruence|]. intros i. rewrite B. apply B'.
Qed.

Lemma add_processing_time_keep E c :
  c <> "processing_time_days" ->
  has_col c (add_processing_time E) = has_col c E
  /\ forall i, cell (add_processing_time E) c i = cell E c i.
Proof.
  intros Hc. unfold add_processing_time, loc_set.
  destruct (_ && _); auto. split.
  - apply has_col_assign_other; assumption.
  - intros i. apply cell_assign_other; assumption.
Qed.


(* ---------------------------------------------------------------- *)
(** ** The stages of [prepare] *)

Lemma enrich_join_unfold O L C P :
  enrich_join O L C P
  = (e3 <- join_all O L C P ;; Ret (normalize_payment_value e3)).
Proof.
  unfold enrich_join, join_all.
  destruct (join_lifecycle O L); simpl; auto.
  destruct (join_customers a C); simpl; auto.
Qed.

Lemma join_all_trace O L C P :
  has_col "order_id" O = true -> has_col "customer_id" C = true ->
  has_col "order_id" P = true -> has_col "payment_installments" P = true ->
  lifecycle_ok L = true ->
  exists e1 e2 e3,
    join_lifecycle O L = Ret e1 /\ join_customers e1 C = Ret e2
    /\ join_payments e2 P = Ret e3 /\ join_all O L C P = Ret e3
    /\ nrows e1 = nrows O /\ nrows e2 = nrows O /\ nrows e3 = nrows O
    /\ has_col "order_id" e1 = true /\ has_col "order_id" e2 = true.
Proof.
  intros HoO HcC HoP HpP Hok. unfold join_all.
  destruct (join_lifecycle_rows O L HoO Hok) as (M1 & H1 & Hn1 & Ho1 & _).
  destruct (join_customers_rows M1 C HcC Ho1) as (M2 & H2 & Hn2 & Ho2).
  destruct (join_payments_rows M2 P HoP HpP Ho2) as (M3 & H3 & Hn3).
  exists M1, M2, M3. rewrite H1. cbn [bind]. rewrite H2. cbn [bind].
  repeat split; auto; congruence.
Qed.

Lemma keeps_before_payments O L C e1 e2 c :
  has_col "order_id" O = true -> has_col "customer_id" C = true ->
  lifecycle_ok L = true ->
  join_lifecycle O L = Ret e1 -> join_customers e1 C = Ret e2 ->
  nrows e1 = nrows O ->
  keeps_name c lifecycle_names = true -> keeps_name c customer_names = true ->
  has_col c e2 = has_col c O
  /\ forall i, i < nrows O -> cell e2 c i = cell O c i.
Proof.
  intros HoO HcC Hok H1 H2 Hn1 K1 K2.
  destruct (join_lifecycle_keep O L e1 c HoO Hok H1 K1) as [A1 B1].
  destruct (join_customers_keep e1 C e2 c HcC H2 K2) as [A2 B2].
  split; [congruence|]. intros i Hi.
  rewrite B2 by lia. apply B1; assumption.
Qed.

Lemma untouched_neq c :
  untouched c = true ->
  keeps_name c lifecycle_names = true /\ keeps_name c customer_names = true
  /\ keeps_name c payment_names = true
  /\ c <> "payment_value" /\ c <> "month" /\ c <> "lifecycle_month"
  /\ c <> "processing_time_days".
Proof.
  unfold untouched, kept_by_joins. intros H.
  repeat (apply andb_prop in H; destruct H as [H ?]).
  repeat match goal with
         | X : negb (String.eqb _ _) = true |- _ =>
             apply negb_true_iff, String.eqb_neq in X
         end.
  repeat split; auto.
  destruct (keeps_name_spec c payment_names "payment_value") as [X _]; auto.
  unfold payment_names. simpl. auto 10.
Qed.

Lemma kept_by_joins_joined O L C P e3 c :
  has_col "order_id" O = true -> has_col "customer_id" C = true ->
  has_col "order_id" P = true -> has_col "payment_installments" P = true ->
  lifecycle_ok L = true ->
  join_all O L C P = Ret e3 ->
  kept_by_joins c = true ->
  has_col c e3 = has_col c O
  /\ forall i, i < nrows O -> cell e3 c i = cell O c i.
Proof.
  intros HoO HcC HoP HpP Hok H3 Hu.
  destruct (join_all_trace O L C P HoO HcC HoP HpP Hok)
    as (e1 & e2 & e3' & H1 & H2 & H3' & Hall & Hn1 & Hn2 & Hn3 & Ho1 & Ho2).
  assert (e3' = e3) by congruence. subst e3'.
  unfold kept_by_joins in Hu.
  apply andb_prop in Hu. destruct Hu as [Hu K3].
  apply andb_prop in Hu. destruct Hu as [K1 K2].
  destruct (keeps_before_payments O L C e1 e2 c HoO HcC Hok H1 H2 Hn1 K1 K2)
    as [A B].
  destruct (join_payments_keep e2 P e3 c HoP HpP Ho2 H3' K3) as [A3 B3].
  split; [congruence|]. intros i Hi. rewrite B3 by lia. apply B; assumption.
Qed.

Lemma kept_by_joins_prepared P C O L e3 c :
  lifecycle_ok L = true ->
  join_all (prepared_orders O) (parse_lifecycle_dates L)
           (prepared_customers C) (prepared_payments P) = Ret e3 ->
  kept_by_joins c = true ->
  has_col c e3 = has_col c (prepared_orders O)
  /\ forall i, i < nrows O -> cell e3 c i = cell (prepared_orders O) c i.
Proof.
  intros Hok Hall Hk. destruct (has_col_prepared_payments P) as [HoP HpP].
  destruct (kept_by_joins_joined _ _ _ _ e3 c
              (has_col_prepared_orders_id O) (has_col_prepared_customers C)
              HoP HpP (lifecycle_ok_parse _ Hok) Hall Hk) as [A B].
  split; auto. intros i Hi. apply B. rewrite nrows_prepared_orders. assumption.
Qed.

Lemma untouched_final E c :
  untouched c = true ->
  has_col c (add_processing_time (add_months (normalize_payment_value E)))
  = has_col c E
  /\ forall i, cell (add_processing_time
                       (add_months (normalize_payment_value E))) c i
               = cell E c i.
Proof.
  intros Hu. destruct (untouched_neq c Hu) as (_ & _ & _ & N1 & N2 & N3 & N4).
  destruct (add_processing_time_keep
              (add_months (normalize_payment_value E)) c N4) as [A1 B1].
  destruct (add_months_keep (normalize_payment_value E) c N2 N3) as [A2 B2].
  destruct (normalize_keep E c N1) as [A3 B3].
  split; [congruence|]. intros i. rewrite B1, B2. apply B3.
Qed.

Lemma prepare_trace P Pr C Se O L :
  lifecycle_ok L = true ->
  exists e3,
    join_all (prepared_orders O) (parse_lifecycle_dates L)
             (prepared_customers C) (prepared_payments P) = Ret e3
    /\ nrows e3 = nrows O
    /\ prepare P Pr C Se O L
       = Ret (mkLoaded (prepared_payments P)
                (ensure_col (ensure_col Pr "product_id" (VStr ""))
                            "product_category_name" (VStr "Unknown"))
                (prepared_customers C) Se (prepared_orders O)
                (parse_lifecycle_dates L)
                (add_processing_time
                   (add_months (normalize_payment_value e3)))).
Proof.
  intros Hok. destruct (has_col_prepared_payments P) as [HoP HpP].
  destruct (join_all_trace _ _ _ _
              (has_col_prepared_orders_id O) (has_col_prepared_customers C)
              HoP HpP (lifecycle_ok_parse _ Hok))
    as (e1 & e2 & e3 & _ & _ & _ & Hall & _ & _ & Hn3 & _).
  exists e3. split; [exact Hall|]. split.
  - rewrite Hn3. apply nrows_prepared_orders.
  - rewrite prepare_unfold, enrich_join_unfold, Hall. reflexivity.
Qed.


(* ---------------------------------------------------------------- *)
(** ** The payment default *)

Lemma has_col_ensure_col_eq df col default c :
  has_col c (ensure_col df col default) = has_col c df || String.eqb c col.
Proof.
  unfold ensure_col. destruct (has_col col df) eqn:E; simpl.
  - destruct (String.eqb c col) eqn:Ec; [|rewrite orb_false_r; reflexivity].
    apply String.eqb_eq in Ec. subst. rewrite E. reflexivity.
  - apply has_col_assign.
Qed.

Lemma has_col_prepared_orders O c :
  has_col c (prepared_orders O)
  = has_col c O
    || existsb (String.eqb c) ["order_id"; "customer_id"; "order_status"].
Proof.
  unfold prepared_orders.
  rewrite !has_col_ensure_col_eq, has_col_parse_order_dates. simpl.
  rewrite orb_false_r, !orb_assoc. reflexivity.
Qed.


Lemma hd_error_in {A : Type} (l : list A) x : hd_error l = Some x -> In x l.
Proof. destruct l; simpl; [discriminate|]. intros H. injection H; auto. Qed.






(* ---------------------------------------------------------------- *)
(** ** Date-time columns *)

Lemma is_datetime_to_datetime_cell fmt v :
  is_datetime (to_datetime_cell fmt v) = true.
Proof.
  destruct v; simpl; auto; destruct (strptime fmt _); reflexivity.
Qed.

Lemma is_datetime_generic s v :
  In v (to_datetime_generic s) -> is_datetime v = true.
Proof.
  unfold to_datetime_generic. intros H. apply in_map_iff in H.
  destruct H as [w [<- _]].
  destruct w; simpl; auto; destruct (guess_datetime s _); reflexivity.
Qed.

Lemma is_datetime_try_formats formats s v :
  In v (try_formats formats s) -> is_datetime v = true.
Proof.
  induction formats as [|f fs IH]; simpl.
  - apply is_datetime_generic.
  - destruct (existsb _ _); auto.
    intros H. apply in_map_iff in H. destruct H as [w [<- _]].
    apply is_datetime_to_datetime_cell.
Qed.

Lemma is_datetime_values_safe series formats v :
  In v (values (to_datetime_safe series formats)) -> is_datetime v = true.
Proof.
  unfold to_datetime_safe. destruct series as [s|]; simpl.
  - destruct (Nat.eqb (List.length s) 0); simpl.
    + intros [].
    + apply is_datetime_try_formats.
  - intros [].
Qed.






(* ---------------------------------------------------------------- *)
(** ** Processing time *)




(* ---------------------------------------------------------------- *)
(** ** Month columns *)



Lemma cell_add_month_absent col name F i :
  has_col col F = false -> i < nrows F ->
  cell (add_month col name F) name i = NA.
Proof.
  intros Hc Hi. unfold add_month. rewrite Hc.
  apply (cell_assign_same name (fun _ => NA)). assumption.
Qed.


(* ---------------------------------------------------------------- *)
(** ** The lifecycle aggregate *)

Lemma max_step_acc m v :
  m <> NA -> max_step m v <> NA /\ value_leb m (max_step m v) = true.
Proof.
  intros Hm. unfold max_step. destruct (isna v) eqn:Ev.
  - split; auto. apply value_leb_refl.
  - destruct (isna m) eqn:Em.
    + destruct m; simpl in Em; congruence.
    + destruct (value_leb m v) eqn:E.
      * split; auto. intros ->. discriminate.
      * split; auto. apply value_leb_refl.
Qed.

Lemma max_step_new m v :
  v <> NA -> max_step m v <> NA /\ value_leb v (max_step m v) = true.
Proof.
  intros Hv. unfold max_step. destruct (isna v) eqn:Ev.
  - destruct v; simpl in Ev; congruence.
  - destruct (isna m) eqn:Em.
    + split; auto. apply value_leb_refl.
    + destruct (value_leb m v) eqn:E.
      * split; auto. apply value_leb_refl.
      * split.
        -- intros ->. discriminate.
        -- apply (leb_false_flip value_leb value_leb_total). exact E.
Qed.

Lemma max_step_cases m v : max_step m v = m \/ max_step m v = v.
Proof.
  unfold max_step. destruct (isna v); auto. destruct (isna m); auto.
  destruct (value_leb m v); auto.
Qed.

Lemma agg_max_fold vals :
  forall m0,
    (m0 <> NA -> fold_left max_step vals m0 <> NA
                 /\ value_leb m0 (fold_left max_step vals m0) = true)
    /\ (forall v, In v vals -> v <> NA ->
                  fold_left max_step vals m0 <> NA
                  /\ value_leb v (fold_left max_step vals m0) = true)
    /\ (fold_left max_step vals m0 = m0
        \/ In (fold_left max_step vals m0) vals).
Proof.
  induction vals as [|v vals IH]; intros m0; simpl.
  - split; [|split].
    + intros H. split; auto. apply value_leb_refl.
    + intros v [].
    + auto.
  - destruct (IH (max_step m0 v)) as (A & B & C).
    split; [|split].
    + intros H0. destruct (max_step_acc m0 v H0) as [N L].
      destruct (A N) as [N' L']. split; auto.
      eapply value_leb_trans; eassumption.
    + intros w [<-|Hw] Hne.
      * destruct (max_step_new m0 v Hne) as [N L].
        destruct (A N) as [N' L']. split; auto.
        eapply value_leb_trans; eassumption.
      * apply B; assumption.
    + destruct C as [C|C]; auto. rewrite C.
      destruct (max_step_cases m0 v) as [->| ->]; auto.
Qed.

Lemma agg_max_spec vals :
  (forall v, In v vals -> v <> NA -> value_leb v (agg_max vals) = true)
  /\ (agg_max vals = NA -> forall v, In v vals -> v = NA)
  /\ (agg_max vals <> NA -> In (agg_max vals) vals).
Proof.
  destruct (agg_max_fold vals NA) as (_ & B & C). fold (agg_max vals) in *.
  
  split; [|split].
  - intros v Hv Hne. apply B; assumption.
  - intros Hm v Hv. destruct v; auto;
      (destruct (B _ Hv); [discriminate | congruence]).
  - intros Hne. destruct C; congruence.
Qed.

Lemma argsort_in key idxs i : In i (argsort key idxs) <-> In i idxs.
Proof. unfold argsort. apply isort_in. Qed.

(** Within one order, the sorted lifecycle table lists the events by
    timestamp, events with equal timestamps in row order. *)
Lemma lifecycle_order_filter L k :
  filter (fun i => value_eqb (cell L "order_id" i) k) (lifecycle_order L)
  = argsort (cell L "event_timestamp")
            (rows_with (cell L "order_id") (nrows L) k).
Proof.
  unfold lifecycle_order. rewrite !filter_argsort.
  fold (rows_with (cell L "order_id") (nrows L) k).
  unfold argsort at 1. apply isort_flat.
  intros x y Hx Hy. apply argsort_in in Hx, Hy.
  apply rows_with_key in Hx, Hy. rewrite Hx, Hy. apply value_leb_refl.
Qed.

Lemma lifecycle_order_bound L i : In i (lifecycle_order L) -> i < nrows L.
Proof.
  unfold lifecycle_order. rewrite !argsort_in, in_seq. lia.
Qed.

Lemma group_cells L c k :
  map (cell (take (lifecycle_order L) L) c)
      (rows_with (cell (take (lifecycle_order L) L) "order_id")
                 (nrows (take (lifecycle_order L) L)) k)
  = map (cell L c)
        (argsort (cell L "event_timestamp")
                 (rows_with (cell L "order_id") (nrows L) k)).
Proof.
  rewrite <- lifecycle_order_filter.
  simpl nrows. rewrite <- rows_with_take, map_map.
  apply map_ext_in. intros r Hr. apply rows_with_bound in Hr.
  apply cell_take; assumption.
Qed.

Lemma filter_all_eq k keys :
  In k keys ->
  List.length (filter (fun v => value_eqb v k) keys) <= 1 ->
  filter (fun v => value_eqb v k) keys = [k].
Proof.
  intros Hin Hlen.
  assert (In k (filter (fun v => value_eqb v k) keys)) as Hk.
  { apply filter_In. split; auto. apply value_eqb_refl. }
  destruct (filter (fun v => value_eqb v k) keys) as [|a [|b r]] eqn:F;
    simpl in *; try contradiction; try lia.
  destruct Hk as [->|[]]. reflexivity.
Qed.

Lemma cell_agg_timestamp S r :
  r < List.length (group_keys (cell S "order_id") (nrows S)) ->
  cell (agg_table S) "event_timestamp" r
  = agg_max (map (cell S "event_timestamp")
                 (rows_with (cell S "order_id") (nrows S)
                    (nth r (group_keys (cell S "order_id") (nrows S)) NA))).
Proof.
  intros Hr. unfold cell, stored, agg_table. simpl.
  apply (nth_map_in
           (fun k => agg_max (map (cell S "event_timestamp")
                                  (rows_with (cell S "order_id") (nrows S) k)))
           _ r NA NA Hr).
Qed.

Lemma cell_agg_type S r :
  r < List.length (group_keys (cell S "order_id") (nrows S)) ->
  cell (agg_table S) "event_type" r
  = last_event_type
      (map (cell S "event_type")
           (rows_with (cell S "order_id") (nrows S)
              (nth r (group_keys (cell S "order_id") (nrows S)) NA))).
Proof.
  intros Hr. unfold cell, stored, agg_table. simpl.
  apply (nth_map_in
           (fun k => last_event_type
                       (map (cell S "event_type")
                            (rows_with (cell S "order_id") (nrows S) k)))
           _ r NA NA Hr).
Qed.

Lemma agg_row L k :
  k <> NA -> (exists j, j < nrows L /\ cell L "order_id" j = k) ->
  exists r,
    rows_with (cell (agg_table (take (lifecycle_order L) L)) "order_id")
              (nrows (agg_table (take (lifecycle_order L) L))) k = [r]
    /\ cell (agg_table (take (lifecycle_order L) L)) "event_timestamp" r
       = agg_max (map (cell L "event_timestamp")
                      (argsort (cell L "event_timestamp")
                               (rows_with (cell L "order_id") (nrows L) k)))
    /\ cell (agg_table (take (lifecycle_order L) L)) "event_type" r
       = last_event_type
           (map (cell L "event_type")
                (argsort (cell L "event_timestamp")
                         (rows_with (cell L "order_id") (nrows L) k))).
Proof.
  intros Hk [j [Hj Hkey]].
  set (S := take (lifecycle_order L) L).
  set (keys := group_keys (cell S "order_id") (nrows S)).
  assert (In k keys) as Hin.
  { apply group_keys_in. split; auto.
    assert (In j (filter (fun i => value_eqb (cell L "order_id" i) k)
                         (lifecycle_order L))) as Hf.
    { rewrite lifecycle_order_filter. apply argsort_in.
      apply rows_with_intro; assumption. }
    apply filter_In in Hf. destruct Hf as [Hf _].
    apply In_nth with (d := 0) in Hf. destruct Hf as [r [Hr Hn]].
    exists r. unfold S. simpl nrows. split; auto.
    rewrite cell_take, Hn; assumption. }
  pose proof (rows_with_agg_table S k) as Hm. fold keys in Hm.
  rewrite (filter_all_eq k keys Hin (group_keys_count _ _ _)) in Hm.
  apply map_singleton in Hm. destruct Hm as [r [Hr Hn]].
  exists r. split; [exact Hr|].
  assert (r < List.length keys) as Hlt.
  { assert (In r [r]) as X by (simpl; auto). rewrite <- Hr in X.
    apply rows_with_bound in X. exact X. }
  rewrite cell_agg_timestamp, cell_agg_type by exact Hlt.
  fold keys. rewrite Hn. unfold S. rewrite !group_cells. auto.
Qed.


Lemma notna_true v : notna v = true <-> v <> NA.
Proof.
  destruct v; simpl; split; intros H; try discriminate; try reflexivity.
  exfalso. apply H. reflexivity.
Qed.

Lemma group_max_spec L k :
  group_max_timestamp L k
    (agg_max (map (cell L "event_timestamp")
                  (argsort (cell L "event_timestamp")
                           (rows_with (cell L "order_id") (nrows L) k)))).
Proof.
  set (G := rows_with (cell L "order_id") (nrows L) k).
  set (vals := map (cell L "event_timestamp")
                   (argsort (cell L "event_timestamp") G)).
  destruct (agg_max_spec vals) as (A & B & C).
  assert (forall j, j < nrows L -> cell L "order_id" j = k ->
                    In (cell L "event_timestamp" j) vals) as Hin.
  { intros j Hj Hk. unfold vals. apply in_map. apply argsort_in.
    apply rows_with_intro; assumption. }
  split; [|split].
  - intros j Hj Hk Hne. apply A; auto.
  - intros Hm j Hj Hk. apply (B Hm). auto.
  - intros Hne. specialize (C Hne). unfold vals in C.
    apply in_map_iff in C. destruct C as [j [Hj Hin']].
    apply argsort_in in Hin'. exists j. repeat split; auto.
    + eapply rows_with_bound; eassumption.
    + eapply rows_with_key; eassumption.
Qed.

Lemma last_map {A B : Type} (f : A -> B) l d d' :
  l <> [] -> last (map f l) d = f (last l d').
Proof.
  induction l as [|x l IH]; [congruence|]. intros _.
  destruct l as [|y l]; [reflexivity|].
  change (last (map f (x :: y :: l)) d) with (last (map f (y :: l)) d).
  change (last (x :: y :: l) d') with (last (y :: l) d').
  apply IH. congruence.
Qed.

Lemma last_event_type_spec L k :
  ((forall j, j < nrows L -> cell L "order_id" j = k ->
              cell L "event_type" j = NA)
   /\ last_event_type
        (map (cell L "event_type")
             (argsort (cell L "event_timestamp")
                      (rows_with (cell L "order_id") (nrows L) k))) = NA)
  \/ exists i,
      last_typed_event L k i
      /\ last_event_type
           (map (cell L "event_type")
                (argsort (cell L "event_timestamp")
                         (rows_with (cell L "order_id") (nrows L) k)))
         = cell L "event_type" i.
Proof.
  set (G := rows_with (cell L "order_id") (nrows L) k).
  set (q := fun j => notna (cell L "event_type" j)).
  unfold last_event_type.
  rewrite (filter_map_swap notna (cell L "event_type")).
  change (fun a => notna (cell L "event_type" a)) with q.
  rewrite filter_argsort.
  destruct (filter q G) as [|g G'] eqn:EG.
  - left. split; [|reflexivity].
    intros j Hj Hk. destruct (cell L "event_type" j) eqn:Ety; auto;
      exfalso;
      assert (In j (filter q G)) as X
          by (apply filter_In; split;
              [apply rows_with_intro; assumption | unfold q; rewrite Ety; reflexivity]);
      rewrite EG in X; destruct X.
  - right. rewrite <- EG.
    assert (filter q G <> []) as Hne by (rewrite EG; discriminate).
    assert (argsort (cell L "event_timestamp") (filter q G) <> []) as Hne'.
    { intros E. unfold argsort in E. apply isort_nil in E. contradiction. }
    assert (Nat.ltb 0 (List.length
                         (map (cell L "event_type")
                              (argsort (cell L "event_timestamp")
                                       (filter q G)))) = true) as ->.
    { apply Nat.ltb_lt. rewrite length_map.
      destruct (argsort _ (filter q G)); [congruence | simpl; lia]. }
    rewrite (last_map _ _ NA 0) by assumption.
    unfold argsort.
    destruct (last_isort (fun i j => value_leb (cell L "event_timestamp" i)
                                               (cell L "event_timestamp" j))
                         (argsort_total _) (argsort_trans _) _ 0 Hne)
      as (l1 & l2 & Hl & H1 & H2).
    set (m := last (isort _ (filter q G)) 0) in *.
    exists m. split; [|reflexivity].
    assert (In m (filter q G)) as Hm.
    { rewrite Hl. apply in_or_app. simpl; auto. }
    apply filter_In in Hm. destruct Hm as [HmG Hmq].
    destruct (filter_split q G l1 m l2 Hl) as (k1 & k2 & HG & -> & ->).
    destruct (rows_with_split_lt _ _ _ _ _ _ HG) as [Hlt Hgt].
    assert (forall j, j < nrows L -> cell L "order_id" j = k ->
                      cell L "event_type" j <> NA ->
                      In j (filter q k1) \/ j = m \/ In j (filter q k2)) as Hcase.
    { intros j Hj Hk Hty.
      assert (In j (filter q G)) as X.
      { apply filter_In. split; [apply rows_with_intro; assumption|].
        unfold q. apply notna_true. assumption. }
      rewrite Hl in X. apply in_app_or in X.
      destruct X as [X|[X|X]]; auto. }
    repeat split.
    + eapply rows_with_bound; eassumption.
    + eapply rows_with_key; eassumption.
    + apply notna_true. exact Hmq.
    + intros j Hj Hk Hty. destruct (Hcase j Hj Hk Hty) as [X|[X|X]].
      * apply (H1 _ X).
      * subst j. apply value_leb_refl.
      * apply (leb_false_flip value_leb value_leb_total). apply (H2 _ X).
    + intros j Hij Hj Hk Hty. destruct (Hcase j Hj Hk Hty) as [X|[X|X]].
      * apply filter_In in X. destruct X as [X _]. apply Hlt in X. lia.
      * lia.
      * apply (H2 _ X).
Qed.

(** C2, amended. For a lifecycle table and a non-missing order
    identifier [k] present in it, the events of [k] that have an
    event_type having a timestamp too: the aggregate has exactly one row
    for [k]; its event_timestamp is the greatest non-missing
    event_timestamp of the group; its event_type is that of the event of
    the group that is last in timestamp order among those with a
    non-missing event_type, the later row winning among equal
    timestamps (missing when no event of the group has an event_type);
    and the left join puts these two cells on every row of order [k]. *)
Theorem lifecycle_aggregate_per_order
        (df_enriched df_lifecycle : DataFrame) (k : value) :
  has_col "order_id" df_enriched = true ->
  has_col "order_id" df_lifecycle = true ->
  has_col "event_timestamp" df_lifecycle = true ->
  has_col "event_type" df_lifecycle = true ->
  k <> NA ->
  (exists j, j < nrows df_lifecycle /\ cell df_lifecycle "order_id" j = k) ->
  (forall j, j < nrows df_lifecycle -> cell df_lifecycle "order_id" j = k ->
             cell df_lifecycle "event_type" j <> NA ->
             cell df_lifecycle "event_timestamp" j <> NA) ->
  exists agg joined r,
    (sorted <- sort_values ["order_id"; "event_timestamp"] df_lifecycle ;;
     lifecycle_agg sorted) = Ret agg
    /\ rows_with (cell agg "order_id") (nrows agg) k = [r]
    /\ group_max_timestamp df_lifecycle k (cell agg "event_timestamp" r)
    /\ (((forall j, j < nrows df_lifecycle ->
                    cell df_lifecycle "order_id" j = k ->
                    cell df_lifecycle "event_type" j = NA)
         /\ cell agg "event_type" r = NA)
        \/ exists i, last_typed_event df_lifecycle k i
                     /\ cell df_lifecycle "event_timestamp" i <> NA
                     /\ cell agg "event_type" r
                        = cell df_lifecycle "event_type" i)
    /\ join_lifecycle df_enriched df_lifecycle = Ret joined
    /\ nrows joined = nrows df_enriched
    /\ (forall i c,
           i < nrows df_enriched -> cell df_enriched "order_id" i = k ->
           In c ["event_timestamp"; "event_type"] ->
           has_col c df_enriched = false ->
           cell joined c i = cell agg c r).
Proof.
  intros HoE Ho Ht Hy Hk Hex Htyped.
  assert (df_empty df_lifecycle = false) as He.
  { destruct Hex as [j [Hj _]]. eapply df_empty_false; eassumption. }
  assert (lifecycle_ok df_lifecycle = true) as Hok.
  { unfold lifecycle_ok. rewrite Ht, Hy. apply orb_true_r. }
  destruct (agg_row df_lifecycle k Hk Hex) as (r & Hr & Hts & Hty).
  set (agg := agg_table (take (lifecycle_order df_lifecycle) df_lifecycle)) in *.
  pose proof (merge_left_Ret "order_id" df_enriched agg HoE eq_refl) as HM.
  set (M := mkDF (List.length (join_pairs "order_id" df_enriched agg))
                 (merge_cols "order_id" df_enriched agg)) in *.
  exists agg, M, r.
  split.
  { rewrite sort_lifecycle_Ret by assumption. cbn [bind].
    apply lifecycle_agg_Ret; rewrite has_col_take; assumption. }
  split; [exact Hr|].
  split; [rewrite Hts; apply group_max_spec|].
  split.
  { rewrite Hty. destruct (last_event_type_spec df_lifecycle k) as [H|[i [Hi Hv]]].
    - left. exact H.
    - right. exists i. split; [exact Hi|]. split; [|exact Hv].
      destruct Hi as (Hi1 & Hi2 & Hi3 & _). apply Htyped; assumption. }
  split.
  { rewrite join_lifecycle_Ret by assumption. rewrite He, Ho. exact HM. }
  split; [eapply nrows_merge_left; [apply unique_on_agg_table | exact HM]|].
  intros i c Hi Hki Hc HcE.
  rewrite (cell_merge_right_side "order_id" df_enriched agg M c i HM
             (unique_on_agg_table _) HcE); auto.
  - unfold match_row. rewrite Hki, Hr. reflexivity.
  - simpl in Hc. destruct Hc as [<-|[<-|[]]]; string_neq.
  - intros e He' Hne. unfold agg in He'. rewrite has_col_agg_table in He'.
    apply in_existsb in He'. simpl in He', Hc.
    destruct He' as [<-|[<-|[<-|[]]]]; [congruence| |];
      destruct Hc as [<-|[<-|[]]]; split; string_neq.
Qed.

(* ---------------------------------------------------------------- *)
(** ** When [load_data] raises *)

Lemma length_replace_col_present c s l :
  existsb (String.eqb c) (map fst l) = true ->
  List.length (replace_col c s l) = List.length l.
Proof.
  induction l as [|[d t] l IH]; simpl; [discriminate|].
  destruct (String.eqb c d); simpl; auto.
Qed.

Lemma df_empty_assign_present c f df :
  has_col c df = true -> df_empty (assign c f df) = df_empty df.
Proof.
  intros H. unfold df_empty, assign. simpl.
  rewrite length_replace_col_present; auto.
Qed.

Lemma df_empty_parse_lifecycle_dates df :
  df_empty (parse_lifecycle_dates df) = df_empty df.
Proof.
  unfold parse_lifecycle_dates.
  destruct (negb (df_empty df)); simpl; auto.
  destruct (has_col "event_timestamp" df) eqn:E; auto.
  unfold parse_dates, set_col. apply df_empty_assign_present; assumption.
Qed.

Lemma join_lifecycle_raises E L :
  lifecycle_ok L = false ->
  join_lifecycle E L = Raise (KeyError (missing_lifecycle_column L)).
Proof.
  unfold lifecycle_ok, join_lifecycle, missing_lifecycle_column. intros H.
  apply orb_false_elim in H. destruct H as [H Hcols].
  apply orb_false_elim in H. destruct H as [He Ho].
  apply negb_false_iff in Ho. rewrite He, Ho. cbn [negb andb].
  unfold sort_values, first_missing. cbn [find]. rewrite Ho. cbn [negb].
  destruct (has_col "event_timestamp" L) eqn:Ht; cbn [negb bind]; auto.
  simpl in Hcols.
  unfold lifecycle_agg, first_missing. cbn [find].
  rewrite !has_col_take, Ho, Ht, Hcols. reflexivity.
Qed.

Lemma missing_lifecycle_column_parse df :
  missing_lifecycle_column (parse_lifecycle_dates df)
  = missing_lifecycle_column df.
Proof.
  unfold missing_lifecycle_column. rewrite has_col_parse_lifecycle_dates.
  reflexivity.
Qed.

Lemma lifecycle_ok_parse_eq df :
  lifecycle_ok (parse_lifecycle_dates df) = lifecycle_ok df.
Proof.
  unfold lifecycle_ok.
  rewrite !has_col_parse_lifecycle_dates, df_empty_parse_lifecycle_dates.
  reflexivity.
Qed.

(** X1. [load_data] raises [KeyError] when the lifecycle table has rows
    and an order_id column but lacks event_timestamp or event_type: the
    key of the error is event_timestamp if it is absent, event_type
    otherwise.  The other five tables play no part. *)
Theorem load_data_raises_on_lifecycle_columns
        (df_payments df_products df_customers df_sellers df_orders
         df_lifecycle : DataFrame) :
  lifecycle_ok df_lifecycle = false ->
  prepare df_payments df_products df_customers df_sellers df_orders
          df_lifecycle
  = Raise (KeyError (missing_lifecycle_column df_lifecycle)).
Proof.
  intros H. rewrite prepare_unfold. unfold enrich_join.
  rewrite join_lifecycle_raises by (rewrite lifecycle_ok_parse_eq; exact H).
  rewrite missing_lifecycle_column_parse. reflexivity.
Qed.

(* ---------------------------------------------------------------- *)
(** ** The joins keep the cells of the order table *)




(* ---------------------------------------------------------------- *)
(** ** One customer row per customer *)

Lemma merge_unmatched on L R M c i :
  merge_left on L R = Ret M -> unique_on on R ->
  has_col c L = false -> c <> on ->
  (forall e, has_col e R = true -> e <> on ->
             c <> (e ++ "_x")%string /\ c <> (e ++ "_y")%string) ->
  i < nrows L ->
  (forall j, j < nrows R -> cell R on j <> cell L on i) ->
  cell M c i = NA.
Proof.
  intros HM HU HcL Hne Hxy Hi Hno.
  rewrite (cell_merge_right_side on L R M c i HM HU HcL Hne Hxy Hi).
  destruct (match_row on L R i) as [j|] eqn:Hm; auto.
  exfalso. unfold match_row in Hm. apply hd_error_in in Hm.
  apply (Hno j).
  - eapply rows_with_bound; eassumption.
  - eapply rows_with_key; eassumption.
Qed.

Lemma firstn_filter_first (p : nat -> bool) n j0 :
  j0 < n -> p j0 = true -> (forall j, j < j0 -> p j = false) ->
  firstn 1 (filter p (seq 0 n)) = [j0].
Proof.
  intros Hj Hp Hbefore.
  replace n with (j0 + S (n - j0 - 1)) by lia.
  rewrite seq_app, filter_app. simpl seq. simpl filter. rewrite Hp.
  assert (filter p (seq 0 j0) = []) as ->.
  { clear Hj Hp. induction j0 as [|m IH]; auto.
    rewrite seq_S, filter_app, IH by (intros; apply Hbefore; lia).
    simpl. rewrite Hbefore by lia. reflexivity. }
  reflexivity.
Qed.

Lemma customers_dedup_rows C j :
  has_col "customer_id" C = true ->
  j < nrows (customers_dedup C) ->
  exists j', j' < nrows C
             /\ forall c, cell (customers_dedup C) c j
                          = cell (project (present_cols
                                             ["customer_id"; "customer_city";
                                              "customer_state"] C) C) c j'.
Proof.
  intros Hc Hj. unfold customers_dedup in *. simpl nrows in Hj.
  set (PC := project _ C) in *.
  set (rho := first_occurrences (cell PC "customer_id") [] (seq 0 (nrows C))) in *.
  exists (nth j rho 0). split.
  - assert (In (nth j rho 0) rho) as X by (apply nth_In; assumption).
    apply first_occurrences_incl, in_seq in X. lia.
  - intros c. apply cell_take. assumption.
Qed.

Lemma cell_project_present cs C c j :
  j < nrows C ->
  cell (project (present_cols cs C) C) c j
  = if existsb (String.eqb c) cs then cell C c j else NA.
Proof.
  intros Hj.
  destruct (existsb (String.eqb c) (present_cols cs C)) eqn:E.
  - rewrite cell_project by assumption.
    rewrite existsb_present_cols in E. apply andb_prop in E.
    destruct E as [-> _]. reflexivity.
  - rewrite cell_no_col by (rewrite has_col_project; exact E).
    rewrite existsb_present_cols in E.
    destruct (existsb (String.eqb c) cs); auto.
    simpl in E. symmetry. apply cell_no_col. exact E.
Qed.

(** X3. The customer join keeps, for every customer identifier, the first
    row of the customer table that carries it: on the orders of a customer
    [k] the joined customer_city and customer_state are those of that
    row, later rows of [k] being ignored; an order whose customer
    identifier is in no customer row gets missing cells; and no order row
    is added or dropped. *)
Theorem customer_first_row_wins
        (df_enriched df_customers : DataFrame) (k : value) (j0 : nat) :
  has_col "customer_id" df_customers = true ->
  has_col "customer_id" df_enriched = true ->
  first_row_with (cell df_customers "customer_id") (nrows df_customers) k j0 ->
  exists joined,
    join_customers df_enriched df_customers = Ret joined
    /\ nrows joined = nrows df_enriched
    /\ forall i c,
        i < nrows df_enriched ->
        In c ["customer_city"; "customer_state"] ->
        has_col c df_enriched = false ->
        (cell df_enriched "customer_id" i = k ->
         cell joined c i = cell df_customers c j0)
        /\ ((forall j, j < nrows df_customers ->
                       cell df_customers "customer_id" j
                       <> cell df_enriched "customer_id" i) ->
            cell joined c i = NA).
Proof.
  intros HcC HcE (Hj0 & Hk0 & Hfirst).
  assert (df_empty df_customers = false) as He
      by (eapply df_empty_false; eassumption).
  pose proof (join_customers_Ret df_enriched df_customers HcC) as HJ.
  rewrite He, HcE in HJ. cbn [negb andb] in HJ.
  assert (has_col "customer_id" (customers_dedup df_customers) = true) as HcD.
  { rewrite has_col_customers_dedup, HcC. reflexivity. }
  pose proof (merge_left_Ret "customer_id" df_enriched
                (customers_dedup df_customers) HcE HcD) as HM.
  set (M := mkDF (List.length (join_pairs "customer_id" df_enriched
                                 (customers_dedup df_customers)))
                 (merge_cols "customer_id" df_enriched
                             (customers_dedup df_customers))) in *.
  assert (unique_on "customer_id" (customers_dedup df_customers)) as HU
      by apply unique_on_first_occurrences.
  exists M. split; [congruence|].
  split; [eapply nrows_merge_left; eassumption|].
  intros i c Hi Hc HcEc.
  assert (c <> "customer_id") as Hne.
  { simpl in Hc. destruct Hc as [<-|[<-|[]]]; string_neq. }
  assert (forall e, has_col e (customers_dedup df_customers) = true ->
                    e <> "customer_id" ->
                    c <> (e ++ "_x")%string /\ c <> (e ++ "_y")%string) as Hxy.
  { intros e He' Hne'. rewrite has_col_customers_dedup in He'.
    apply andb_prop in He'. destruct He' as [He' _].
    apply in_existsb in He'. simpl in He', Hc.
    destruct He' as [<-|[<-|[<-|[]]]]; [congruence| |];
      destruct Hc as [<-|[<-|[]]]; split; string_neq. }
  assert (existsb (String.eqb c)
                  ["customer_id"; "customer_city"; "customer_state"] = true)
    as Hc3.
  { simpl in Hc. destruct Hc as [<-|[<-|[]]]; reflexivity. }
  set (cs := ["customer_id"; "customer_city"; "customer_state"]) in *.
  set (PC := project (present_cols cs df_customers) df_customers).
  set (rho := first_occurrences (cell PC "customer_id") []
                                (seq 0 (nrows df_customers))).
  assert (forall j, j < nrows df_customers ->
                    cell PC "customer_id" j = cell df_customers "customer_id" j)
    as Hkey.
  { intros j Hj. unfold PC. rewrite cell_project_present by assumption.
    reflexivity. }
  split.
  - intros Hki.
    rewrite (cell_merge_right_side "customer_id" df_enriched _ M c i
               HM HU HcEc Hne Hxy Hi).
    assert (filter (fun j => value_eqb (cell PC "customer_id" j) k) rho = [j0])
      as Hf.
    { unfold rho. rewrite first_occurrences_filter. simpl.
      apply firstn_filter_first; auto.
      - rewrite Hkey by assumption. apply value_eqb_eq. assumption.
      - intros j Hj. rewrite Hkey by lia. apply value_eqb_neq.
        apply Hfirst. assumption. }
    pose proof (rows_with_take rho PC "customer_id" k) as Hm.
    rewrite Hf in Hm. apply map_singleton in Hm. destruct Hm as [r [Hr Hn]].
    unfold match_row. rewrite Hki.
    change (customers_dedup df_customers) with (take rho PC).
    simpl nrows. rewrite Hr. simpl.
    rewrite cell_take, Hn.
    + unfold PC. rewrite cell_project_present by assumption.
      rewrite Hc3. reflexivity.
    + eapply rows_with_bound. rewrite Hr. simpl. auto.
  - intros Hno.
    apply (merge_unmatched "customer_id" df_enriched
             (customers_dedup df_customers) M c i HM HU HcEc Hne Hxy Hi).
    intros j Hj.
    destruct (customers_dedup_rows df_customers j HcC Hj) as [j' [Hj' Hcell]].
    rewrite Hcell. fold cs. fold PC. rewrite Hkey by assumption.
    apply Hno. assumption.
Qed.

(* ---------------------------------------------------------------- *)
(** ** Parsing a parsed column again *)

Lemma map_is_datetime_id (f : value -> value) s :
  (forall v, is_datetime v = true -> f v = v) ->
  Forall (fun v => is_datetime v = true) s -> map f s = s.
Proof.
  intros Hf Hs. induction Hs as [|v s Hv _ IH]; simpl; auto.
  rewrite Hf, IH; auto.
Qed.

Lemma to_datetime_cell_datetime fmt v :
  is_datetime v = true -> to_datetime_cell fmt v = v.
Proof. destruct v; simpl; auto; discriminate. Qed.

Lemma try_formats_datetime formats s :
  Forall (fun v => is_datetime v = true) s -> try_formats formats s = s.
Proof.
  intros Hs. induction formats as [|f fs IH]; simpl.
  - unfold to_datetime_generic. apply map_is_datetime_id; auto.
    intros v Hv. destruct v; auto; discriminate.
  - rewrite (map_is_datetime_id (to_datetime_cell f))
      by (auto using to_datetime_cell_datetime).
    destruct (existsb notna s); auto.
Qed.

(** X4. [to_datetime_safe] keeps the length of the column, returns only
    timestamps and missing cells, and leaves a column it has already
    parsed as it is, whatever the candidate formats of the two calls. *)
Theorem to_datetime_safe_stable
        (series : list value) (formats formats' : option (list string)) :
  List.length (values (to_datetime_safe (Some series) formats))
  = List.length series
  /\ Forall (fun v => is_datetime v = true)
            (values (to_datetime_safe (Some series) formats))
  /\ values (to_datetime_safe
               (Some (values (to_datetime_safe (Some series) formats)))
               formats')
     = values (to_datetime_safe (Some series) formats).
Proof.
  assert (Forall (fun v => is_datetime v = true)
                 (values (to_datetime_safe (Some series) formats))) as Ht.
  { apply Forall_forall. intros v Hv.
    eapply is_datetime_values_safe; eassumption. }
  split; [|split; [exact Ht|]].
  - unfold to_datetime_safe. destruct series as [|v s]; simpl; auto.
    apply length_try_formats.
  - set (r := values (to_datetime_safe (Some series) formats)) in *.
    unfold to_datetime_safe at 1.
    destruct (Nat.eqb (List.length r) 0) eqn:E; simpl.
    + apply Nat.eqb_eq in E. destruct r; [reflexivity | discriminate].
    + apply try_formats_datetime. exact Ht.
Qed.

(* ---------------------------------------------------------------- *)
(** ** What [ensure_col] writes *)

(** X5. [ensure_col] never overwrites: a table that has the column is
    returned unchanged; otherwise the new column holds the default on
    every row, and every other cell is as before. *)
Theorem ensure_col_cells (df : DataFrame) (col : string) (default : value) :
  (has_col col df = true -> ensure_col df col default = df)
  /\ (has_col col df = false ->
      forall i, i < nrows df -> cell (ensure_col df col default) col i = default)
  /\ (forall c i, c <> col -> cell (ensure_col df col default) c i = cell df c i)
  /\ (forall c, has_col c (ensure_col df col default)
                = has_col c df || String.eqb c col).
Proof.
  split; [|split; [|split]].
  - intros H. unfold ensure_col. rewrite H. reflexivity.
  - intros H i Hi. apply cell_ensure_col_new; assumption.
  - intros c i Hc. unfold ensure_col. destruct (has_col col df); simpl; auto.
    apply cell_assign_other; assumption.
  - intros c. apply has_col_ensure_col_eq.
Qed.

(* ---------------------------------------------------------------- *)
(** ** Months of the rows that have a processing time *)






(* ---------------------------------------------------------------- *)
(** ** The key figures of the first tab *)








(** X8. The first tab raises [AttributeError] whenever the order table
    has no order_delivered_customer_date column, although [load_data]
    itself succeeds: it is so when the order file is missing. *)
Theorem tab1_raises_without_delivery_column
        (df_payments df_products df_customers df_sellers df_orders
         df_lifecycle : DataFrame) :
  lifecycle_ok df_lifecycle = true ->
  has_col "order_delivered_customer_date" df_orders = false ->
  exists data,
    prepare df_payments df_products df_customers df_sellers df_orders
            df_lifecycle = Ret data
    /\ tab1_kpis (orders data) (enriched data)
       = Raise (OtherException "AttributeError").
Proof.
  intros Hok Hd.
  destruct (prepare_trace df_payments df_products df_customers df_sellers
              df_orders df_lifecycle Hok) as (e3 & Hall & Hn3 & Hprep).
  eexists. split; [exact Hprep|]. simpl enriched. simpl orders.
  destruct (untouched_final e3 "order_delivered_customer_date" eq_refl)
    as [A _].
  destruct (kept_by_joins_prepared _ _ _ _ e3 "order_delivered_customer_date"
              Hok Hall eq_refl) as [A' _].
  unfold tab1_kpis. rewrite A, A', has_col_prepared_orders, Hd. reflexivity.
Qed.

(* ---------------------------------------------------------------- *)
(** ** The regions of the fourth tab *)








(* ---------------------------------------------------------------- *)
(** ** The average processing time of the first tab *)




(* ---------------------------------------------------------------- *)
(** ** The lifecycle funnel *)

Lemma stage_counts_bound (key : nat -> value) (l : list nat) :
  List.length (filter (fun i => is_text "order_created" (key i)) l)
  + (List.length (filter (fun i => is_text "order_paid" (key i)) l)
     + (List.length (filter (fun i => is_text "order_shipped" (key i)) l)
        + (List.length (filter (fun i => is_text "order_delivered" (key i)) l)
           + 0)))
  <= List.length l.
Proof.
  induction l as [|a l IH]; [simpl; lia|].
  cbn [filter].
  set (f1 := filter (fun i => is_text "order_created" (key i)) l) in *.
  set (f2 := filter (fun i => is_text "order_paid" (key i)) l) in *.
  set (f3 := filter (fun i => is_text "order_shipped" (key i)) l) in *.
  set (f4 := filter (fun i => is_text "order_delivered" (key i)) l) in *.
  unfold is_text.
  destruct (key a) as [|s| |]; cbn [value_eqb List.length]; try lia.
  destruct (String.eqb s "order_created") eqn:E1;
    destruct (String.eqb s "order_paid") eqn:E2;
    destruct (String.eqb s "order_shipped") eqn:E3;
    destruct (String.eqb s "order_delivered") eqn:E4;
    repeat match goal with
           | H : String.eqb _ _ = true |- _ => apply String.eqb_eq in H
           end;
    try congruence; cbn [List.length]; lia.
Qed.

(** X11. When the first tab draws the lifecycle funnel, it has one count
    for each of the four stages, in the order created, paid, shipped,
    delivered, and no lifecycle row is counted twice: the counts add up to
    at most the number of lifecycle rows. *)
Theorem funnel_counts_bounded (df_lifecycle : DataFrame) (counts : list nat) :
  funnel_stages df_lifecycle = Some counts ->
  List.length counts = List.length stage_order
  /\ list_sum counts <= nrows df_lifecycle
  /\ forall k stage, nth_error stage_order k = Some stage ->
       nth_error counts k
       = Some (List.length
                 (filter (fun i => is_text stage
                                     (cell df_lifecycle "event_type" i))
                         (seq 0 (nrows df_lifecycle)))).
Proof.
  unfold funnel_stages.
  destruct (negb (df_empty df_lifecycle) && has_col "event_type" df_lifecycle);
    [|discriminate].
  intros H. injection H as <-. split; [reflexivity|]. split.
  - cbn [list_sum].
    eapply Nat.le_trans; [apply stage_counts_bound|].
    rewrite length_seq. auto.
  - intros k stage Hk.
    change (nth_error
              (map (fun stage0 =>
                      List.length
                        (filter (fun i => is_text stage0
                                            (cell df_lifecycle "event_type" i))
                                (seq 0 (nrows df_lifecycle))))
                   stage_order) k
            = Some (List.length
                      (filter (fun i => is_text stage
                                          (cell df_lifecycle "event_type" i))
                              (seq 0 (nrows df_lifecycle))))).
    rewrite nth_error_map, Hk. reflexivity.
Qed.

(* ---------------------------------------------------------------- *)
(** ** The top customer of the fourth tab *)

Lemma argmax_some (l : list (value * Qc)) (b : value * Qc) :
  exists p, argmax l (Some b) = Some (fst p)
            /\ In p (b :: l)
            /\ forall q, In q (b :: l) -> (snd q <= snd p)%Qc.
Proof.
  revert b. induction l as [|[k s] l IH]; intros b.
  - exists b. simpl. split; [reflexivity|]. split; [left; reflexivity|].
    intros q [<-|[]]. apply Qcle_refl.
  - cbn [argmax]. destruct (Qle_bool s (snd b)) eqn:Hle.
    + destruct (IH b) as (p & Hp & Hin & Hmax).
      exists p. split; [exact Hp|]. split.
      * destruct Hin as [<-|Hin]; [left; reflexivity | right; right; exact Hin].
      * intros q [<-|[<-|Hq]].
        -- apply Hmax. left. reflexivity.
        -- apply Qcle_trans with (snd b).
           ++ apply Qle_bool_iff in Hle. exact Hle.
           ++ apply Hmax. left. reflexivity.
        -- apply Hmax. right. exact Hq.
    + destruct (IH (k, s)) as (p & Hp & Hin & Hmax).
      exists p. split; [exact Hp|]. split.
      * destruct Hin as [<-|Hin]; [right; left; reflexivity
                                  | right; right; exact Hin].
      * intros q [<-|[<-|Hq]].
        -- apply Qcle_trans with s.
           ++ assert (~ (s <= snd b)%Q) as Hn.
              { intros H. apply Qle_bool_iff in H. congruence. }
              apply Qnot_le_lt in Hn. apply Qlt_le_weak. exact Hn.
           ++ apply (Hmax (k, s)). left. reflexivity.
        -- apply Hmax. left. reflexivity.
        -- apply Hmax. right. exact Hq.
Qed.

Lemma idxmax_sum_spec by_ col df i :
  i < nrows df -> cell df by_ i <> NA ->
  exists k,
    idxmax_sum by_ col df = Some k
    /\ In k (group_keys (cell df by_) (nrows df))
    /\ forall k', In k' (group_keys (cell df by_) (nrows df)) ->
         (series_sum (map (cell df col)
                          (rows_with (cell df by_) (nrows df) k'))
          <= series_sum (map (cell df col)
                             (rows_with (cell df by_) (nrows df) k)))%Qc.
Proof.
  intros Hi Hk. unfold idxmax_sum. cbv zeta.
  set (g := fun k => (k, series_sum
                           (map (cell df col)
                                (rows_with (cell df by_) (nrows df) k)))).
  assert (In (cell df by_ i) (group_keys (cell df by_) (nrows df))) as Hin.
  { apply group_keys_in. split; [exact Hk|]. exists i. auto. }
  destruct (group_keys (cell df by_) (nrows df)) as [|k0 keys] eqn:Hkeys;
    [destruct Hin|].
  cbn [map argmax].
  destruct (argmax_some (map g keys) (g k0)) as (p & Hp & Hpin & Hmax).
  assert (In p (map g (k0 :: keys))) as Hpin' by exact Hpin.
  apply in_map_iff in Hpin'. destruct Hpin' as (k & <- & Hkin).
  exists k. split; [exact Hp|]. split; [exact Hkin|].
  intros k' Hk'. apply (Hmax (g k')).
  change (In (g k') (map g (k0 :: keys))). apply in_map. exact Hk'.
Qed.

(** X12. When some delivered order has a customer identifier, the top
    customer of the fourth tab is the identifier of one of the rows, and no
    customer has a larger sum of payment values. *)
Theorem top_customer_is_best (df_paid : DataFrame) (i : nat) :
  has_col "customer_id" df_paid = true ->
  has_col "payment_value" df_paid = true ->
  i < nrows df_paid ->
  cell df_paid "customer_id" i <> NA ->
  (exists j, j < nrows df_paid
             /\ cell df_paid "customer_id" j = top_customer df_paid)
  /\ forall j, j < nrows df_paid ->
       cell df_paid "customer_id" j <> NA ->
       (customer_total df_paid (cell df_paid "customer_id" j)
        <= customer_total df_paid (top_customer df_paid))%Qc.
Proof.
  intros Hc Hp Hi Hk.
  destruct (idxmax_sum_spec "customer_id" "payment_value" df_paid i Hi Hk)
    as (k & Hidx & Hin & Hmax).
  assert (top_customer df_paid = k) as ->.
  { unfold top_customer. rewrite Hc, Hp, Hidx.
    assert (Nat.ltb 0 (nrows df_paid) = true) as ->
        by (apply Nat.ltb_lt; lia).
    reflexivity. }
  split.
  - apply group_keys_in in Hin. destruct Hin as [_ (j & Hj & Hjk)].
    exists j. auto.
  - intros j Hj Hjk. unfold customer_total. apply Hmax.
    apply group_keys_in. split; [exact Hjk|]. exists j. auto.
Qed.

End App.

(* ------------------------------------------------------------------ *)
(** ** Worked examples *)

(** The scenario of the order table A, B, C, D run through [load_data]. *)
Example load_data_scenario :
  exists data,
    load_data sample_strptime sample_guess_datetime sample_parse_float
              sample_read_csv stable_ties = Ret data
    /\ nrows (enriched data) = 4
    /\ map (fun v => value_eqb v default_payment_value)
           (column "payment_value" (enriched data))
       = [false; false; true; true]
    /\ column "payment_type" (enriched data)
       = [VStr "voucher"; VStr "boleto"; NA; NA]
    /\ column "event_type" (enriched data) = [VStr "order_shipped"; NA; NA; NA]
    /\ column "event_timestamp" (enriched data) = [VTime T2; NA; NA; NA]
    /\ map isna (column "processing_time_days" (enriched data))
       = [false; true; true; false].
Proof.
  eexists. split; [vm_compute; reflexivity|]. vm_compute. repeat split.
Qed.

(** Order A created at T1 and shipped at T2: the aggregate is the shipping
    event. *)
Example order_shipped_scenario :
  exists agg,
    (sorted <- sort_values ["order_id"; "event_timestamp"] parsed_lifecycle ;;
     lifecycle_agg sorted) = Ret agg
    /\ nrows agg = 1
    /\ cell agg "order_id" 0 = VStr "A"
    /\ cell agg "event_type" 0 = VStr "order_shipped"
    /\ cell agg "event_timestamp" 0 = VTime T2.
Proof.
  eexists. split; [vm_compute; reflexivity|]. vm_compute. repeat split.
Qed.

(** Six missing files: an enriched table with no rows. *)
Example no_files_scenario :
  exists data,
    load_data sample_strptime sample_guess_datetime sample_parse_float
              (fun _ => Raise FileNotFoundError) stable_ties
    = Ret data
    /\ nrows (orders data) = 0
    /\ nrows (enriched data) = 0
    /\ columns (enriched data)
       = ["order_id"; "customer_id"; "order_status"; "payment_value";
          "month"; "lifecycle_month"].
Proof.
  eexists. split; [vm_compute; reflexivity|]. vm_compute. repeat split.
Qed.


Lemma lifecycle_aggregate_per_order_witness :
  exists agg joined r,
    (sorted <- sort_values ["order_id"; "event_timestamp"] parsed_lifecycle ;;
     lifecycle_agg sorted) = Ret agg
    /\ rows_with (cell agg "order_id") (nrows agg) (VStr "A") = [r]
    /\ group_max_timestamp parsed_lifecycle (VStr "A")
                           (cell agg "event_timestamp" r)
    /\ (((forall j, j < nrows parsed_lifecycle ->
                    cell parsed_lifecycle "order_id" j = VStr "A" ->
                    cell parsed_lifecycle "event_type" j = NA)
         /\ cell agg "event_type" r = NA)
        \/ exists i, last_typed_event parsed_lifecycle (VStr "A") i
                     /\ cell parsed_lifecycle "event_timestamp" i <> NA
                     /\ cell agg "event_type" r
                        = cell parsed_lifecycle "event_type" i)
    /\ join_lifecycle order_ids parsed_lifecycle = Ret joined
    /\ nrows joined = nrows order_ids
    /\ (forall i c,
           i < nrows order_ids -> cell order_ids "order_id" i = VStr "A" ->
           In c ["event_timestamp"; "event_type"] ->
           has_col c order_ids = false ->
           cell joined c i = cell agg c r).
Proof.
  apply (lifecycle_aggregate_per_order order_ids parsed_lifecycle (VStr "A"));
    try reflexivity.
  - discriminate.
  - exists 0. split; [simpl; lia | reflexivity].
  - intros j Hj _ _. destruct j as [|[|j]].
    + vm_compute. discriminate.
    + vm_compute. discriminate.
    + simpl in Hj. lia.
Defined.

(** C2 as the specification words it fails where the last event of an
    order has no event_type: the aggregate keeps the event_type of the
    earlier event. *)
Lemma event_type_of_last_timestamp_fails :
  ~ event_type_of_last_timestamp untyped_last_event (VStr "A").
Proof.
  intros H.
  specialize (H (agg_table (take (lifecycle_order untyped_last_event)
                                 untyped_last_event)) 0 1).
  assert (cell (agg_table (take (lifecycle_order untyped_last_event)
                                untyped_last_event)) "event_type" 0
          = cell untyped_last_event "event_type" 1) as X.
  { apply H.
    - reflexivity.
    - reflexivity.
    - unfold last_timestamp_event. split; [simpl; lia|].
      split; [reflexivity|]. split; [vm_compute; discriminate|]. split.
      + intros j Hj _ _. destruct j as [|[|j]];
          [reflexivity | reflexivity | simpl in Hj; lia].
      + intros j Hlt Hj _ _. simpl in Hj. lia. }
  vm_compute in X. discriminate X.
Qed.


(** With that sort the voucher row of A, the last row, is the one kept. *)
Example tied_payments_scenario :
  exists small,
    payments_small late_first_ties tied_payments = Ret small
    /\ column "order_id" small = [VStr "A"; VStr "B"]
    /\ column "payment_type" small = [VStr "voucher"; VStr "boleto"]
    /\ least_installment_row tied_payments (VStr "A") 16.
Proof.
  eexists. split; [vm_compute; reflexivity|].
  split; [reflexivity|]. split; [reflexivity|].
  unfold least_installment_row. split; [simpl; lia|].
  split; [reflexivity|].
  intros j Hj _. simpl in Hj.
  do 17 (destruct j as [|j]; [reflexivity|]). lia.
Qed.

(** Two payment rows for A, of 3 installments and of 1: the second is the
    only row of least count, whatever the sort does with equal counts. *)
Example sample_payments_least_row :
  forall i0, least_installment_row sample_payments (VStr "A") i0 -> i0 = 1.
Proof.
  intros i0 (Hi & Hk & Hmin). simpl in Hi.
  destruct i0 as [|[|[|i0]]]; [| reflexivity | | lia].
  - specialize (Hmin 1). vm_compute in Hmin.
    assert (false = true) as X by (apply Hmin; [lia | reflexivity]).
    discriminate X.
  - vm_compute in Hk. discriminate Hk.
Qed.


(** The payment row kept for A is the second one, with one installment. *)
Example payments_small_scenario :
  exists small,
    payments_small stable_ties sample_payments = Ret small
    /\ column "order_id" small = [VStr "A"; VStr "B"]
    /\ column "payment_type" small = [VStr "voucher"; VStr "boleto"]
    /\ smallest_installment_row sample_payments (VStr "A") 1.
Proof.
  eexists. split; [vm_compute; reflexivity|].
  split; [reflexivity|]. split; [reflexivity|].
  unfold smallest_installment_row. split; [simpl; lia|].
  split; [reflexivity|]. split.
  - intros j Hj _. destruct j as [|[|[|j]]];
      [reflexivity | reflexivity | reflexivity | simpl in Hj; lia].
  - intros j Hj _. destruct j as [|j]; [reflexivity | lia].
Qed.


Lemma to_datetime_safe_first_format_witness :
  values (to_datetime_safe sample_strptime sample_guess_datetime
            (Some [VStr "2024-01-15 10:30:00"; VStr "unknown"])
            (Some ["%d/%m/%Y %H:%M"; "%Y-%m-%d %H:%M:%S"; "%Y-%m-%d %H:%M"]))
  = map (to_datetime_cell sample_strptime "%Y-%m-%d %H:%M:%S")
        [VStr "2024-01-15 10:30:00"; VStr "unknown"]
  /\ map (to_datetime_cell sample_strptime "%Y-%m-%d %H:%M:%S")
         [VStr "2024-01-15 10:30:00"; VStr "unknown"]
     = [VTime T1; NA].
Proof.
  split; [|reflexivity].
  destruct (to_datetime_safe_first_format sample_strptime sample_guess_datetime
              [VStr "2024-01-15 10:30:00"; VStr "unknown"]
              (Some ["%d/%m/%Y %H:%M"; "%Y-%m-%d %H:%M:%S"; "%Y-%m-%d %H:%M"]))
    as (_ & _ & _ & H).
  destruct H as [H _]; [discriminate|].
  apply (H ["%d/%m/%Y %H:%M"] "%Y-%m-%d %H:%M:%S" ["%Y-%m-%d %H:%M"]).
  - reflexivity.
  - constructor; [|constructor].
    intros v [<-|[<-|[]]]; reflexivity.
  - exists (VStr "2024-01-15 10:30:00"). split; [left; reflexivity|].
    vm_compute. discriminate.
Defined.


(** Order D is delivered a day before its purchase: minus one day. *)
Example negative_processing_time :
  elapsed_days (VTime 1709942400000000000) (VTime 1710028800000000000)
  = VNum (Q2Qc (-1 # 1)).
Proof. unfold elapsed_days. f_equal. apply Qc_is_canon. reflexivity. Qed.

Lemma safe_read_csv_total_witness :
  safe_read_csv sample_read_csv "data/dim_order.csv" = sample_orders
  /\ safe_read_csv sample_read_csv "data/dim_sellers.csv" = empty_df
  /\ nrows (safe_read_csv sample_read_csv "data/dim_customer.csv") = 0.
Proof.
  split; [|split].
  - apply (proj1 (safe_read_csv_total sample_read_csv "data/dim_order.csv")).
    reflexivity.
  - apply (proj2 (safe_read_csv_total sample_read_csv "data/dim_sellers.csv")
             FileNotFoundError).
    reflexivity.
  - apply (proj2 (safe_read_csv_total sample_read_csv "data/dim_customer.csv")
             (OtherException "ParserError")).
    reflexivity.
Defined.

Lemma unparseable_installments_win_witness :
  exists i0 small joined,
    least_installment_row
      (coerce_installments sample_parse_float text_payments) (VStr "A") i0
    /\ to_numeric_cell sample_parse_float
         (cell text_payments "payment_installments" i0) = NA
    /\ cell (coerce_installments sample_parse_float text_payments)
            "payment_installments" i0 = VNum 0
    /\ ((forall j, j < nrows text_payments ->
                   cell text_payments "order_id" j = VStr "A" ->
                   to_numeric_cell sample_parse_float
                     (cell text_payments "payment_installments" j) = NA ->
                   j = 1) ->
        i0 = 1)
    /\ payments_small stable_ties (coerce_installments sample_parse_float text_payments)
       = Ret small
    /\ (exists r,
           rows_with (cell small "order_id") (nrows small) (VStr "A") = [r]
           /\ forall c,
               cell small c r
               = cell (coerce_installments sample_parse_float text_payments)
                      c i0)
    /\ join_payments stable_ties order_ids
         (coerce_installments sample_parse_float text_payments) = Ret joined
    /\ (forall i, i < nrows order_ids ->
                  cell order_ids "order_id" i = VStr "A" ->
                  has_col "payment_installments" order_ids = false ->
                  cell joined "payment_installments" i = VNum 0).
Proof.
  apply (unparseable_installments_win sample_parse_float stable_ties order_ids
           text_payments (VStr "A") 1); try reflexivity.
  - simpl. lia.
  - intros j Hj _. destruct j as [|[|j]].
    + right. eexists. split; [reflexivity|]. reflexivity.
    + left. reflexivity.
    + simpl in Hj. lia.
Defined.

(** C7. At an order whose purchase date cannot be read, the month that
    [load_data] derives is not missing: it is the text "NaT". *)
Theorem month_of_unreadable_purchase_date :
  exists data,
    prepare sample_strptime sample_guess_datetime sample_parse_float stable_ties
            sample_payments empty_df sample_customers empty_df
            sample_orders sample_lifecycle = Ret data
    /\ cell (orders data) "order_purchase_timestamp" 2 = NA
    /\ cell (enriched data) "order_purchase_timestamp" 2 = NA
    /\ cell (enriched data) "month" 2 = VStr "NaT"
    /\ isna (cell (enriched data) "month" 2) = false
    /\ cell (enriched data) "lifecycle_month" 1 = VStr "NaT"
    /\ cell (enriched data) "month" 0 = VStr "2024-01".
Proof.
  eexists. split; [vm_compute; reflexivity|]. vm_compute. repeat split.
Qed.

(* ------------------------------------------------------------------ *)
(** ** Worked examples of the further properties *)

Lemma load_data_raises_on_lifecycle_columns_witness :
  lifecycle_ok untyped_lifecycle = false
  /\ prepare sample_strptime sample_guess_datetime sample_parse_float stable_ties
             sample_payments empty_df sample_customers empty_df
             sample_orders untyped_lifecycle
     = Raise (KeyError "event_type").
Proof.
  split; [reflexivity|].
  apply (load_data_raises_on_lifecycle_columns
           sample_strptime sample_guess_datetime sample_parse_float stable_ties
           sample_payments empty_df sample_customers empty_df
           sample_orders untyped_lifecycle).
  reflexivity.
Defined.


(** Customer c1 has two rows: the orders of c1 get the city of the first. *)
Lemma customer_first_row_wins_witness :
  first_row_with (cell repeated_customers "customer_id")
                 (nrows repeated_customers) (VStr "c1") 0
  /\ exists joined,
      join_customers sample_orders repeated_customers = Ret joined
      /\ nrows joined = nrows sample_orders
      /\ forall i c,
          i < nrows sample_orders ->
          In c ["customer_city"; "customer_state"] ->
          has_col c sample_orders = false ->
          (cell sample_orders "customer_id" i = VStr "c1" ->
           cell joined c i = cell repeated_customers c 0)
          /\ ((forall j, j < nrows repeated_customers ->
                         cell repeated_customers "customer_id" j
                         <> cell sample_orders "customer_id" i) ->
              cell joined c i = NA).
Proof.
  assert (first_row_with (cell repeated_customers "customer_id")
                         (nrows repeated_customers) (VStr "c1") 0) as H.
  { split; [simpl; lia|]. split; [reflexivity|]. intros j Hj. lia. }
  split; [exact H|].
  apply (customer_first_row_wins sample_orders repeated_customers
                                 (VStr "c1") 0);
    [reflexivity | reflexivity | exact H].
Defined.



(** Six missing files: [load_data] returns, the first tab raises. *)
Lemma tab1_raises_without_delivery_column_witness :
  lifecycle_ok empty_df = true
  /\ has_col "order_delivered_customer_date" empty_df = false
  /\ exists data,
      prepare sample_strptime sample_guess_datetime sample_parse_float stable_ties
              empty_df empty_df empty_df empty_df empty_df empty_df
      = Ret data
      /\ tab1_kpis (orders data) (enriched data)
         = Raise (OtherException "AttributeError").
Proof.
  split; [reflexivity|]. split; [reflexivity|].
  apply (tab1_raises_without_delivery_column
           sample_strptime sample_guess_datetime sample_parse_float stable_ties
           empty_df empty_df empty_df empty_df empty_df empty_df);
    reflexivity.
Defined.


(** On the orders A, B, C, D the customers c1 and c2 live in SP and PE,
    three orders are delivered, and the fourth tab shows "Unknown". *)
Example tab4_regions_scenario :
  exists data paid,
    prepare sample_strptime sample_guess_datetime sample_parse_float stable_ties
            sample_payments empty_df sample_customers empty_df
            sample_orders sample_lifecycle = Ret data
    /\ column "customer_state" (enriched data)
       = [VStr "SP"; VStr "PE"; NA; VStr "SP"]
    /\ tab4_paid (enriched data) (customers data) = Ret paid
    /\ column "customer_state_x" paid = [VStr "SP"; NA; VStr "SP"]
    /\ column "customer_state_y" paid = [VStr "SP"; NA; VStr "SP"]
    /\ column "customer_state" paid
       = [VStr "Unknown"; VStr "Unknown"; VStr "Unknown"]
    /\ top_region paid = VStr "Unknown".
Proof.
  eexists. eexists. split; [vm_compute; reflexivity|].
  split; [vm_compute; reflexivity|].
  split; [vm_compute; reflexivity|]. vm_compute. repeat split.
Qed.


(** Order A created and shipped: one event at each of these two stages. *)
Lemma funnel_counts_bounded_witness :
  funnel_stages sample_lifecycle = Some [1; 0; 1; 0]
  /\ List.length [1; 0; 1; 0] = List.length stage_order
  /\ list_sum [1; 0; 1; 0] <= nrows sample_lifecycle
  /\ forall k stage, nth_error stage_order k = Some stage ->
       nth_error [1; 0; 1; 0] k
       = Some (List.length
                 (filter (fun i => is_text stage
                                     (cell sample_lifecycle "event_type" i))
                         (seq 0 (nrows sample_lifecycle)))).
Proof.
  split; [reflexivity|].
  apply (funnel_counts_bounded sample_lifecycle [1; 0; 1; 0]).
  reflexivity.
Defined.

(** Customer c1 paid 40 and 25, customer c2 paid 60: c1 is on top. *)
Lemma top_customer_is_best_witness :
  top_customer paid_orders = VStr "c1"
  /\ (exists j, j < nrows paid_orders
                /\ cell paid_orders "customer_id" j = top_customer paid_orders)
  /\ forall j, j < nrows paid_orders ->
       cell paid_orders "customer_id" j <> NA ->
       (customer_total paid_orders (cell paid_orders "customer_id" j)
        <= customer_total paid_orders (top_customer paid_orders))%Qc.
Proof.
  split; [reflexivity|].
  apply (top_customer_is_best paid_orders 0).
  - reflexivity.
  - reflexivity.
  - simpl. lia.
  - simpl. discriminate.
Defined.
